(** * migrate_framer.py: asset migration for a statically exported site

    A shallow embedding of [src/migrate_framer.py] and the properties of
    its URL extraction, asset naming, download cache and document rewrite.

    Conventions of the embedding.
    - A Python [str] is the list of its code points ([list N]); [bytes] is a
      list of byte values.  Text is taken to be free of lone surrogates (it
      comes from UTF-8 decoding and from [html.unescape], which produce
      none), so [str.encode('utf-8')] is total.
    - Paths are lists of components relative to the working directory of the
      run; the file system is a finite map from canonical paths to nodes,
      without symbolic links, with POSIX path rules.  A file is one that the
      process may read, and perhaps write, or one that it may not open.
    - The world outside the script is an [env]: the entity table of
      [html.entities], [str.lower] on text outside ASCII, the iteration
      order of a [set], [os.path.relpath], the network, the limit of the
      interpreter on the digits of a decimal string, and the errors of
      [os.stat] that the tree alone does not decide.
    - The console of a state lists what was printed, latest line first,
      with a mark for every call of [download_file]; printing is taken to
      succeed, as on a console that encodes every character. *)

From Stdlib Require Import NArith ZArith List Ascii String Permutation Sorted Lia Bool.
From stdpp Require Import gmap list strings fin_maps.

Set Default Proof Using "Type".

(** ** Python strings *)

Abbreviation str := (list N).
Abbreviation bytes := (list N).

(** A string literal of the source, as a [str]. *)
Definition lit (s : string) : str :=
  List.map N_of_ascii (list_ascii_of_string s).

Fixpoint startswith (p s : str) : bool :=
  match p, s with
  | [], _ => true
  | _ :: _, [] => false
  | a :: p', b :: s' => (a =? b)%N && startswith p' s'
  end.

(** [sub in s] *)
Fixpoint contains (sub s : str) : bool :=
  startswith sub s ||
  match s with
  | [] => false
  | _ :: s' => contains sub s'
  end.

(** [c in s] for a single character *)
Definition has_char (c : N) (s : str) : bool := existsb (N.eqb c) s.

Fixpoint takewhile (f : N -> bool) (s : str) : str :=
  match s with
  | [] => []
  | c :: s' => if f c then c :: takewhile f s' else []
  end.

Fixpoint dropwhile (f : N -> bool) (s : str) : str :=
  match s with
  | [] => []
  | c :: s' => if f c then dropwhile f s' else s
  end.

(** [s.replace(old, new)] for a non-empty [old]: the occurrences are found
    from the left and do not overlap; [skip] counts the characters of the
    occurrence just replaced that are still to be passed over. *)
Fixpoint replace_from (old new : str) (skip : nat) (s : str) : str :=
  match s with
  | [] => []
  | c :: s' =>
      match skip with
      | S k => replace_from old new k s'
      | O =>
          if startswith old s
          then new ++ replace_from old new (length old - 1) s'
          else c :: replace_from old new 0 s'
      end
  end.

(** [s.replace(old, new)]; with an empty [old] Python inserts [new] before
    every character and at the end. *)
Definition replace (old new s : str) : str :=
  match old with
  | [] => new ++ flat_map (fun c => c :: new) s
  | _ :: _ => replace_from old new 0 s
  end.

(** [s.split(c, 1)[0]]: the part before the first [c] (all of [s] if none). *)
Definition before_char (c : N) (s : str) : str :=
  takewhile (fun x => negb (x =? c)%N) s.

(** [s.rfind(c)], as the number of characters up to and including the last
    [c]; [0] when [c] does not occur (Python's [-1 + 1]). *)
Fixpoint after_last_index (c : N) (s : str) : nat :=
  match s with
  | [] => 0
  | x :: s' =>
      match after_last_index c s' with
      | O => if (x =? c)%N then 1 else 0
      | S k => S (S k)
      end
  end.

Definition is_ascii_upper (c : N) : bool := (65 <=? c)%N && (c <=? 90)%N.
Definition is_ascii_lower (c : N) : bool := (97 <=? c)%N && (c <=? 122)%N.
Definition is_ascii_digit (c : N) : bool := (48 <=? c)%N && (c <=? 57)%N.
Definition is_hex_digit (c : N) : bool :=
  is_ascii_digit c || ((97 <=? c)%N && (c <=? 102)%N)
  || ((65 <=? c)%N && (c <=? 70)%N).

(** ** The URL extractor: [re.findall(framer_url_pattern, content)] *)

(** What [\s] matches in a [str] pattern: the Unicode white space. *)
Definition is_space (c : N) : bool :=
  ((9 <=? c) && (c <=? 13) || (28 <=? c) && (c <=? 32)
   || (c =? 133) || (c =? 160) || (c =? 5760)
   || (8192 <=? c) && (c <=? 8202)
   || (c =? 8232) || (c =? 8233) || (c =? 8239) || (c =? 8287)
   || (c =? 12288))%N.

(** The character class of the pattern: anything but a double quote, a
    single quote, a closing parenthesis and white space. *)
Definition url_char (c : N) : bool :=
  negb ((c =? 34) || (c =? 39) || (c =? 41))%N && negb (is_space c).

Definition cdn_prefix : str := lit "https://framerusercontent.com/".

(** The match of the pattern that starts at the head of [s], if any: the
    prefix followed by one or more [url_char], as many as there are. *)
Definition match_at (s : str) : option str :=
  if startswith cdn_prefix s then
    match takewhile url_char (drop (length cdn_prefix) s) with
    | [] => None
    | body => Some (cdn_prefix ++ body)
    end
  else None.

(** The scan of [re.findall]: leftmost matches, resumed after each one. *)
Fixpoint findall_from (skip : nat) (s : str) : list str :=
  match s with
  | [] => []
  | _ :: s' =>
      match skip with
      | S k => findall_from k s'
      | O =>
          match match_at s with
          | Some m => m :: findall_from (length m - 1) s'
          | None => findall_from 0 s'
          end
      end
  end.

Definition findall (content : str) : list str := findall_from 0 content.

(** [sorted(matches, key=len, reverse=True)]: a stable sort, so that matches
    of equal length keep the order in which the set yields them. *)
Fixpoint insert_by_len (x : str) (l : list str) : list str :=
  match l with
  | [] => [x]
  | y :: l' =>
      if (length y <? length x)%nat then x :: l else y :: insert_by_len x l'
  end.

Definition sorted_by_len_desc (l : list str) : list str :=
  fold_left (fun acc x => insert_by_len x acc) l [].

(** ** The world outside the script *)

Abbreviation path := (list str).

(** What [urllib.request.urlopen] and [response.read()] do for a URL: the
    request fails, the body cannot be read, or the body arrives. *)
Inductive response :=
  | ConnFail
  | ReadFail
  | Body (b : bytes).

(** An entry of the tree: a regular file that the process may read, with
    its data and whether it may also be opened for writing and written; a
    directory, with whether entries may be made in it; a regular file that
    the process may not read.  The script opens a file for writing only
    after it has read it, or when nothing exists at its path, so that
    whether a file of the last kind could be written plays no part in a
    run; it is taken not to be. *)
Inductive node :=
  | File (data : bytes) (writable : bool)
  | Dir (writable : bool)
  | Locked (data : bytes).

(** The exceptions that the script can meet. [OSError] is the plain
    [OSError] of a name that is too long. *)
Inductive exn :=
  | FileNotFoundError
  | IsADirectoryError
  | PermissionError
  | FileExistsError
  | NotADirectoryError
  | OSError
  | ValueError.

Record env := {
  (** the table [html.entities.html5], keyed by name with or without [;] *)
  html5 : str -> option str;
  (** [s.lower()] for a string with a character outside ASCII *)
  str_lower : str -> str;
  (** the order in which [set(l)] is iterated *)
  set_iter : list str -> list str;
  (** [os.path.relpath(asset, start).replace(os.sep, '/')] on resolved
      paths; [None] is the [ValueError] of a platform with drives *)
  relpath : path -> path -> option str;
  (** the network *)
  urlopen : str -> response;
  (** whether [urlsplit] raises [ValueError] for a host part with brackets
      or with characters outside ASCII: the checks differ between versions
      and use the tables of [unicodedata] *)
  netloc_rejected : str -> bool;
  (** [sys.get_int_max_str_digits()]: the most digits that [int] accepts in
      a decimal string; [0] when the interpreter has no limit *)
  int_max_str_digits : nat;
  (** the error with which [os.stat] fails on a path of the tree, when it
      is not one that [Path.exists()] takes for an absent file: a name that
      is too long, a directory that may not be searched *)
  stat_error : gmap path node -> path -> option exn;
}.

(** A set holds each match once, in an order the script does not choose. *)
Definition env_ok (E : env) : Prop :=
  forall l : list str, Permutation (set_iter E l) (remove_dups l).

(** ** [html.unescape] *)

(** The class of a character of an entity name in [_charref]: not a tab, a
    line feed, a form feed, a space, [<], [&], [#] or [;]. *)
Definition name_char (c : N) : bool :=
  negb ((c =? 9) || (c =? 10) || (c =? 12) || (c =? 32) || (c =? 60)
        || (c =? 38) || (c =? 35) || (c =? 59))%N.

Fixpoint take_upto (n : nat) (f : N -> bool) (s : str) : str :=
  match n, s with
  | S k, c :: s' => if f c then c :: take_upto k f s' else []
  | _, _ => []
  end.

Definition opt_semicolon (s : str) : str :=
  match s with
  | c :: _ => if (c =? 59)%N then [c] else []
  | [] => []
  end.

(** Group 1 of the match of [_charref] right after an ampersand: a decimal
    reference, a hexadecimal one, or a name of up to 32 characters, each
    with its semicolon when there is one. *)
Definition charref_at (s : str) : option str :=
  match s with
  | [] => None
  | c :: s1 =>
      if (c =? 35)%N then
        match takewhile is_ascii_digit s1 with
        | (_ :: _) as ds =>
            Some (c :: ds ++ opt_semicolon (drop (length ds) s1))
        | [] =>
            match s1 with
            | x :: s2 =>
                if ((x =? 120) || (x =? 88))%N then
                  match takewhile is_hex_digit s2 with
                  | (_ :: _) as hs =>
                      Some (c :: x :: hs ++ opt_semicolon (drop (length hs) s2))
                  | [] => None
                  end
                else None
            | [] => None
            end
        end
      else
        match take_upto 32 name_char s with
        | (_ :: _) as nm => Some (nm ++ opt_semicolon (drop (length nm) s))
        | [] => None
        end
  end.

Definition digit_val (c : N) : N :=
  if is_ascii_digit c then c - 48
  else if (97 <=? c)%N then c - 87 else c - 55.

(** The value of [int(ds, base)] on a string of digits, when it returns;
    [int_dec] below has the limit on the digits of a decimal string. *)
Definition int_of (base : N) (ds : str) : N :=
  fold_left (fun acc c => acc * base + digit_val c)%N ds 0%N.

Definition rstrip_semicolon (s : str) : str :=
  takewhile (fun c => negb (c =? 59)%N) s.

Definition invalid_charrefs : list (N * N) :=
  [(0x00, 0xfffd); (0x0d, 0x0d); (0x80, 0x20ac); (0x81, 0x81);
   (0x82, 0x201a); (0x83, 0x0192); (0x84, 0x201e); (0x85, 0x2026);
   (0x86, 0x2020); (0x87, 0x2021); (0x88, 0x02c6); (0x89, 0x2030);
   (0x8a, 0x0160); (0x8b, 0x2039); (0x8c, 0x0152); (0x8d, 0x8d);
   (0x8e, 0x017d); (0x8f, 0x8f); (0x90, 0x90); (0x91, 0x2018);
   (0x92, 0x2019); (0x93, 0x201c); (0x94, 0x201d); (0x95, 0x2022);
   (0x96, 0x2013); (0x97, 0x2014); (0x98, 0x02dc); (0x99, 0x2122);
   (0x9a, 0x0161); (0x9b, 0x203a); (0x9c, 0x0153); (0x9d, 0x9d);
   (0x9e, 0x017e); (0x9f, 0x0178)]%N.

Definition invalid_codepoint (n : N) : bool :=
  ((1 <=? n) && (n <=? 8) || (0xe <=? n) && (n <=? 0x1f)
   || (0x7f <=? n) && (n <=? 0x9f) || (0xfdd0 <=? n) && (n <=? 0xfdef)
   || (n =? 0xb) || (0xfffe <=? N.land n 0xffff))%N.

Definition numeric_charref (num : N) : str :=
  match List.find (fun kv => (fst kv =? num)%N) invalid_charrefs with
  | Some kv => [snd kv]
  | None =>
      if ((0xD800 <=? num) && (num <=? 0xDFFF) || (0x10FFFF <? num))%N
      then [0xFFFD%N]
      else if invalid_codepoint num then [] else [num]
  end.

(** [for x in range(len(s)-1, 1, -1)]: the longest proper prefix of [s], of
    two characters at least, that is a name of the table. *)
Fixpoint longest_name (E : env) (s : str) (x : nat) : option str :=
  match x with
  | O => None
  | S x' =>
      match x' with
      | O => None
      | S _ =>
          match html5 E (take x s) with
          | Some v => Some (v ++ drop x s)
          | None => longest_name E s x'
          end
      end
  end.

(** [_replace_charref] on group 1 of a match *)
Definition replace_charref (E : env) (s : str) : str :=
  match s with
  | [] => [38%N]
  | c :: s1 =>
      if (c =? 35)%N then
        match s1 with
        | x :: s2 =>
            if ((x =? 120) || (x =? 88))%N
            then numeric_charref (int_of 16 (rstrip_semicolon s2))
            else numeric_charref (int_of 10 (rstrip_semicolon s1))
        | [] => [38%N; c]
        end
      else
        match html5 E s with
        | Some v => v
        | None =>
            match longest_name E s (length s - 1) with
            | Some r => r
            | None => 38%N :: s
            end
        end
  end.

(** [_charref.sub(_replace_charref, s)] *)
Fixpoint charref_sub (E : env) (skip : nat) (s : str) : str :=
  match s with
  | [] => []
  | c :: s' =>
      match skip with
      | S k => charref_sub E k s'
      | O =>
          if (c =? 38)%N then
            match charref_at s' with
            | Some g => replace_charref E g ++ charref_sub E (length g) s'
            | None => c :: charref_sub E 0 s'
            end
          else c :: charref_sub E 0 s'
      end
  end.

(** What [html.unescape(s)] returns, whenever it returns. *)
Definition unescape (E : env) (s : str) : str :=
  if has_char 38 s then charref_sub E 0 s else s.

(** [int(ds)] on decimal digits: with a limit on the digits, a longer
    string raises [ValueError]. *)
Definition int_dec (E : env) (ds : str) : exn + N :=
  if (0 <? int_max_str_digits E)%nat && (int_max_str_digits E <? length ds)%nat
  then inl ValueError
  else inr (int_of 10 ds).

(** [_replace_charref] raises on group 1 of a match: a decimal reference
    whose digits [int] refuses (hexadecimal digits have no limit). *)
Definition charref_overflows (E : env) (s : str) : bool :=
  match s with
  | c :: x :: s2 =>
      (c =? 35)%N && negb ((x =? 120) || (x =? 88))%N
      && match int_dec E (rstrip_semicolon (x :: s2)) with
         | inl _ => true
         | inr _ => false
         end
  | _ => false
  end.

(** [_charref.sub(_replace_charref, s)] raises: one of the references
    that the scan meets does. *)
Fixpoint charref_raises (E : env) (skip : nat) (s : str) : bool :=
  match s with
  | [] => false
  | c :: s' =>
      match skip with
      | S k => charref_raises E k s'
      | O =>
          if (c =? 38)%N then
            match charref_at s' with
            | Some g => charref_overflows E g || charref_raises E (length g) s'
            | None => charref_raises E 0 s'
            end
          else charref_raises E 0 s'
      end
  end.

(** [html.unescape(s)]: the [ValueError] of a decimal reference with too
    many digits, or the string with its references replaced. *)
Definition html_unescape (E : env) (s : str) : exn + str :=
  if has_char 38 s && charref_raises E 0 s then inl ValueError
  else inr (unescape E s).

(** ** [urllib.parse.urlparse(url).path], [os.path] *)

Definition ascii_lower (c : N) : N := if is_ascii_upper c then (c + 32)%N else c.

(** [s.lower()]: on ASCII text the capital letters are lowered one by one;
    on other text the mapping depends on the neighbours of a character. *)
Definition lower (E : env) (s : str) : str :=
  if forallb (fun c => (c <? 128)%N) s then List.map ascii_lower s
  else str_lower E s.

Definition scheme_char (c : N) : bool :=
  is_ascii_lower c || is_ascii_upper c || is_ascii_digit c
  || (c =? 43)%N || (c =? 45)%N || (c =? 46)%N.

Definition uses_params : list str :=
  List.map lit ["ftp"; "hdl"; "prospero"; "http"; "imap"; "https"; "shttp";
                "rtsp"; "rtspu"; "sip"; "sips"; "mms"; "sftp"; "tel"]%string.

(** [_splitparams(url)[0]]: the path up to the first [;] of its last segment *)
Definition splitparams (url : str) : str :=
  let k := after_last_index 47 url in
  take k url ++ before_char 59 (drop k url).

(** The [path] field of [urlparse(url)], when [urlparse] returns; the
    checks that [urlsplit] runs on a host with brackets or non-ASCII
    characters, which can only raise, are in [urlparse_raises]. *)
Definition urlparse_path (url : str) : str :=
  let url := List.filter (fun c => negb ((c =? 9) || (c =? 13) || (c =? 10))%N)
               (dropwhile (fun c => (c <=? 32)%N) url) in
  let i := length (before_char 58 url) in
  let has_scheme :=
    has_char 58 url && (0 <? i)%nat
    && match url with
       | c :: _ => is_ascii_lower c || is_ascii_upper c
       | [] => false
       end
    && forallb scheme_char (take i url) in
  let scheme := if has_scheme then List.map ascii_lower (take i url) else [] in
  let url := if has_scheme then drop (S i) url else url in
  let url :=
    if startswith (lit "//") url
    then dropwhile (fun c => negb ((c =? 47) || (c =? 63) || (c =? 35))%N)
           (drop 2 url)
    else url in
  let url := before_char 35 url in
  let url := before_char 63 url in
  if (bool_decide (scheme = []) || bool_decide (scheme ∈ uses_params))
     && has_char 59 url
  then splitparams url else url.

(** The host part that [urlsplit] finds in the URL. *)
Definition urlparse_netloc (url : str) : str :=
  let url := List.filter (fun c => negb ((c =? 9) || (c =? 13) || (c =? 10))%N)
               (dropwhile (fun c => (c <=? 32)%N) url) in
  let i := length (before_char 58 url) in
  let has_scheme :=
    has_char 58 url && (0 <? i)%nat
    && match url with
       | c :: _ => is_ascii_lower c || is_ascii_upper c
       | [] => false
       end
    && forallb scheme_char (take i url) in
  let url := if has_scheme then drop (S i) url else url in
  if startswith (lit "//") url
  then takewhile (fun c => negb ((c =? 47) || (c =? 63) || (c =? 35))%N)
         (drop 2 url)
  else [].

(** [urlparse(url)] raises [ValueError]: it never does for a host part of
    ASCII characters without brackets. *)
Definition urlparse_raises (E : env) (url : str) : bool :=
  let netloc := urlparse_netloc url in
  negb (forallb (fun c => (c <? 128)%N && negb ((c =? 91) || (c =? 93))%N) netloc)
  && netloc_rejected E netloc.

(** [os.path.basename(p)] *)
Definition basename (p : str) : str := drop (after_last_index 47 p) p.

(** [os.path.splitext(p)[1]]: from the last dot of the last component on,
    unless only dots come before it there. *)
Definition splitext_ext (p : str) : str :=
  let b := basename p in
  match after_last_index 46 b with
  | O => []
  | S d => if forallb (N.eqb 46) (take d b) then [] else drop d b
  end.

(** ** UTF-8 *)

(** [s.encode('utf-8')] *)
Definition utf8_encode_char (c : N) : bytes :=
  (if c <? 0x80 then [c]
   else if c <? 0x800 then
     [0xC0 + N.shiftr c 6; 0x80 + N.land c 0x3F]
   else if c <? 0x10000 then
     [0xE0 + N.shiftr c 12; 0x80 + N.land (N.shiftr c 6) 0x3F;
      0x80 + N.land c 0x3F]
   else
     [0xF0 + N.land (N.shiftr c 18) 7; 0x80 + N.land (N.shiftr c 12) 0x3F;
      0x80 + N.land (N.shiftr c 6) 0x3F; 0x80 + N.land c 0x3F])%N.

Definition utf8_encode (s : str) : bytes := flat_map utf8_encode_char s.

Definition is_cont (b : N) : bool := ((0x80 <=? b) && (b <=? 0xBF))%N.

Definition lead3_ok (b0 b1 : N) : bool :=
  ((b0 =? 0xE0) && (0xA0 <=? b1) && (b1 <=? 0xBF)
   || ((0xE1 <=? b0) && (b0 <=? 0xEC) || (0xEE <=? b0) && (b0 <=? 0xEF))
      && is_cont b1
   || (b0 =? 0xED) && (0x80 <=? b1) && (b1 <=? 0x9F))%N.

Definition lead4_ok (b0 b1 : N) : bool :=
  ((b0 =? 0xF0) && (0x90 <=? b1) && (b1 <=? 0xBF)
   || (0xF1 <=? b0) && (b0 <=? 0xF3) && is_cont b1
   || (b0 =? 0xF4) && (0x80 <=? b1) && (b1 <=? 0x8F))%N.

(** [bs.decode('utf-8')], strict; [None] is [UnicodeDecodeError]. *)
Fixpoint utf8_decode (bs : bytes) : option str :=
  match bs with
  | [] => Some []
  | b0 :: r0 =>
      if (b0 <? 0x80)%N then cons b0 <$> utf8_decode r0
      else
        match r0 with
        | [] => None
        | b1 :: r1 =>
            if ((0xC2 <=? b0) && (b0 <=? 0xDF))%N then
              if is_cont b1
              then cons (N.shiftl (N.land b0 0x1F) 6 + N.land b1 0x3F)%N
                     <$> utf8_decode r1
              else None
            else
              match r1 with
              | [] => None
              | b2 :: r2 =>
                  if lead3_ok b0 b1 then
                    if is_cont b2
                    then cons (N.shiftl (N.land b0 0x0F) 12
                               + N.shiftl (N.land b1 0x3F) 6
                               + N.land b2 0x3F)%N
                           <$> utf8_decode r2
                    else None
                  else
                    match r2 with
                    | [] => None
                    | b3 :: r3 =>
                        if lead4_ok b0 b1 && is_cont b2 && is_cont b3
                        then cons (N.shiftl (N.land b0 0x07) 18
                                   + N.shiftl (N.land b1 0x3F) 12
                                   + N.shiftl (N.land b2 0x3F) 6
                                   + N.land b3 0x3F)%N
                               <$> utf8_decode r3
                        else None
                    end
              end
        end
  end.

(** Reading in text mode with the default [newline=None]: a carriage return,
    alone or before a line feed, is read as a line feed. *)
Fixpoint universal_newlines (s : str) : str :=
  match s with
  | [] => []
  | c :: s' =>
      if (c =? 13)%N then
        10%N :: match s' with
                | d :: s'' =>
                    if (d =? 10)%N then universal_newlines s''
                    else universal_newlines s'
                | [] => []
                end
      else c :: universal_newlines s'
  end.

(** ** [hashlib.md5] (RFC 1321) *)

Module MD5.

Definition mask32 (x : N) : N := N.land x 0xFFFFFFFF.
Definition add32 (a b : N) : N := mask32 (a + b).
Definition not32 (a : N) : N := N.lxor (mask32 a) 0xFFFFFFFF.
Definition rotl32 (x n : N) : N :=
  mask32 (N.lor (N.shiftl x n) (N.shiftr (mask32 x) (32 - n))).

Definition shifts : list N :=
  [7; 12; 17; 22; 7; 12; 17; 22; 7; 12; 17; 22; 7; 12; 17; 22;
   5; 9; 14; 20; 5; 9; 14; 20; 5; 9; 14; 20; 5; 9; 14; 20;
   4; 11; 16; 23; 4; 11; 16; 23; 4; 11; 16; 23; 4; 11; 16; 23;
   6; 10; 15; 21; 6; 10; 15; 21; 6; 10; 15; 21; 6; 10; 15; 21]%N.

(** [floor(2^32 * abs(sin(i + 1)))] *)
Definition sines : list N :=
  [0xd76aa478; 0xe8c7b756; 0x242070db; 0xc1bdceee;
   0xf57c0faf; 0x4787c62a; 0xa8304613; 0xfd469501;
   0x698098d8; 0x8b44f7af; 0xffff5bb1; 0x895cd7be;
   0x6b901122; 0xfd987193; 0xa679438e; 0x49b40821;
   0xf61e2562; 0xc040b340; 0x265e5a51; 0xe9b6c7aa;
   0xd62f105d; 0x02441453; 0xd8a1e681; 0xe7d3fbc8;
   0x21e1cde6; 0xc33707d6; 0xf4d50d87; 0x455a14ed;
   0xa9e3e905; 0xfcefa3f8; 0x676f02d9; 0x8d2a4c8a;
   0xfffa3942; 0x8771f681; 0x6d9d6122; 0xfde5380c;
   0xa4beea44; 0x4bdecfa9; 0xf6bb4b60; 0xbebfbc70;
   0x289b7ec6; 0xeaa127fa; 0xd4ef3085; 0x04881d05;
   0xd9d4d039; 0xe6db99e5; 0x1fa27cf8; 0xc4ac5665;
   0xf4292244; 0x432aff97; 0xab9423a7; 0xfc93a039;
   0x655b59c3; 0x8f0ccc92; 0xffeff47d; 0x85845dd1;
   0x6fa87e4f; 0xfe2ce6e0; 0xa3014314; 0x4e0811a1;
   0xf7537e82; 0xbd3af235; 0x2ad7d2bb; 0xeb86d391]%N.

Definition regs : Type := N * N * N * N.

Definition init : regs := (0x67452301, 0xefcdab89, 0x98badcfe, 0x10325476)%N.

(** One of the 64 operations on the 16 words [M] of a block. *)
Definition step (M : list N) (r : regs) (i : nat) : regs :=
  let '(a, b, c, d) := r in
  let '(f, g) :=
    if (i <? 16)%nat then
      (N.lor (N.land b c) (N.land (not32 b) d), i)
    else if (i <? 32)%nat then
      (N.lor (N.land d b) (N.land (not32 d) c), (5 * i + 1) mod 16)%nat
    else if (i <? 48)%nat then
      (N.lxor (N.lxor b c) d, (3 * i + 5) mod 16)%nat
    else
      (N.lxor c (N.lor b (not32 d)), (7 * i) mod 16)%nat in
  let f := add32 (add32 (add32 f a) (nth i sines 0%N)) (nth g M 0%N) in
  (d, add32 b (rotl32 f (nth i shifts 0%N)), b, c).

(** A little-endian 32-bit word *)
Definition word_of (bs : bytes) : N :=
  fold_right (fun b acc => N.land b 0xFF + 256 * acc)%N 0%N (take 4 bs).

Fixpoint words_of (n : nat) (bs : bytes) : list N :=
  match n with
  | O => []
  | S k => word_of bs :: words_of k (drop 4 bs)
  end.

Definition block (r : regs) (bs : bytes) : regs :=
  let M := words_of 16 bs in
  let '(a0, b0, c0, d0) := r in
  let '(a, b, c, d) := fold_left (step M) (seq 0 64) r in
  (add32 a0 a, add32 b0 b, add32 c0 c, add32 d0 d).

Definition bytes_le (n : nat) (w : N) : bytes :=
  List.map (fun k => N.land (N.shiftr w (8 * N.of_nat k)) 0xFF) (seq 0 n).

(** The message, a one bit, zeros up to 56 modulo 64, the bit length. *)
Definition pad (msg : bytes) : bytes :=
  let n := length msg in
  msg ++ [0x80%N] ++ repeat 0%N ((119 - n mod 64) mod 64)
      ++ bytes_le 8 (8 * N.of_nat n).

Fixpoint blocks (fuel : nat) (r : regs) (bs : bytes) : regs :=
  match fuel with
  | O => r
  | S k =>
      match bs with
      | [] => r
      | _ :: _ => blocks k (block r (take 64 bs)) (drop 64 bs)
      end
  end.

(** [hashlib.md5(msg).digest()] *)
Definition digest (msg : bytes) : bytes :=
  let p := pad msg in
  let '(a, b, c, d) := blocks (length p) init p in
  bytes_le 4 a ++ bytes_le 4 b ++ bytes_le 4 c ++ bytes_le 4 d.

Definition hex_char (n : N) : N := if (n <? 10)%N then (48 + n)%N else (87 + n)%N.

(** [hashlib.md5(msg).hexdigest()] *)
Definition hexdigest (msg : bytes) : str :=
  flat_map (fun b => [hex_char (N.shiftr b 4); hex_char (N.land b 0xF)])
    (digest msg).

End MD5.

(** ** The file system *)

(** The working directory is the root of the tree, a writable directory. *)
Definition node_at (fs : gmap path node) (p : path) : option node :=
  match p with
  | [] => Some (Dir true)
  | _ :: _ => fs !! p
  end.

Definition dotdot : str := lit "..".
Definition dot : str := lit ".".

(** Path resolution from the directory [cur]: every component is entered
    from a directory; the canonical path reached is returned, whether or
    not something exists there. *)
Fixpoint walk (fs : gmap path node) (cur p : path) : option path :=
  match p with
  | [] => Some cur
  | c :: rest =>
      match node_at fs cur with
      | Some (Dir _) =>
          if bool_decide (c = dotdot) then walk fs (removelast cur) rest
          else if bool_decide (c = dot) then walk fs cur rest
          else walk fs (cur ++ [c]) rest
      | _ => None
      end
  end.

(** What [Path.exists()] returns when [os.stat] raises nothing that it
    lets through; [download_file] asks [stat_error] first. *)
Definition path_exists (fs : gmap path node) (p : path) : bool :=
  match walk fs [] p with
  | Some q => match node_at fs q with Some _ => true | None => false end
  | None => false
  end.

(** [open(p, 'w')] or [open(p, 'wb')]: the file is created or emptied. *)
Definition open_w (fs : gmap path node) (p : path)
  : exn + (path * gmap path node) :=
  match walk fs [] p with
  | None => inl FileNotFoundError
  | Some q =>
      match node_at fs q with
      | Some (Dir _) => inl IsADirectoryError
      | Some (File _ w) =>
          if w then inr (q, <[q := File [] true]> fs) else inl PermissionError
      | Some (Locked _) => inl PermissionError
      | None =>
          match node_at fs (removelast q) with
          | Some (Dir true) => inr (q, <[q := File [] true]> fs)
          | Some (Dir false) => inl PermissionError
          | _ => inl FileNotFoundError
          end
      end
  end.

Inductive read_result :=
  | ReadOk (content : str)
  | ReadUndecodable
  | ReadFails (e : exn).

(** [open(p, 'r', encoding='utf-8').read()] *)
Definition read_text (fs : gmap path node) (p : path) : read_result :=
  match walk fs [] p with
  | None => ReadFails FileNotFoundError
  | Some q =>
      match node_at fs q with
      | None => ReadFails FileNotFoundError
      | Some (Dir _) => ReadFails IsADirectoryError
      | Some (Locked _) => ReadFails PermissionError
      | Some (File data _) =>
          match utf8_decode data with
          | Some s => ReadOk (universal_newlines s)
          | None => ReadUndecodable
          end
      end
  end.

(** [open(p, 'w', encoding='utf-8')] followed by [f.write(s)] *)
Definition write_text (fs : gmap path node) (p : path) (s : str)
  : exn + gmap path node :=
  match open_w fs p with
  | inl e => inl e
  | inr (q, fs') => inr (<[q := File (utf8_encode s) true]> fs')
  end.

(** [d.mkdir(parents=True, exist_ok=True)], one component at a time: a
    file in the place of the directory raises [FileExistsError], a file in
    the place of one of its parents [NotADirectoryError]. *)
Fixpoint mkdir_from (fs : gmap path node) (cur p : path)
  : exn + gmap path node :=
  match p with
  | [] => inr fs
  | c :: rest =>
      let q := cur ++ [c] in
      match node_at fs q with
      | Some (Dir _) => mkdir_from fs q rest
      | Some (File _ _) | Some (Locked _) =>
          inl (match rest with
               | [] => FileExistsError
               | _ :: _ => NotADirectoryError
               end)
      | None =>
          match node_at fs cur with
          | Some (Dir true) => mkdir_from (<[q := Dir true]> fs) q rest
          | Some (Dir false) => inl PermissionError
          | _ => inl FileNotFoundError
          end
      end
  end.

Definition ends_with (suffix s : str) : bool :=
  startswith (rev suffix) (rev s).

(** [list(Path('.').rglob('*.html'))]: every entry of the tree, file or
    directory, whose name ends in [.html].  The real scan yields the
    entries in the order of the directory listings, which the tree does not
    fix; the order of the map stands for it, and no statement below depends
    on which order it is. *)
Definition rglob (fs : gmap path node) : list path :=
  List.filter
    (fun p => match p with
              | [] => false
              | _ :: _ => ends_with (lit ".html") (List.last p [])
                          && bool_decide (walk fs [] p = Some p)
              end)
    (List.map fst (map_to_list fs)).

(** [Path.resolve()], relative to the working directory. *)
Definition resolve (p : path) : path :=
  fold_left
    (fun acc c =>
       if bool_decide (c = dotdot) then removelast acc
       else if bool_decide (c = dot) then acc
       else acc ++ [c])
    p [].

(** [Path.parent] of a resolved path *)
Definition parent (p : path) : path := removelast p.

Fixpoint strip_common (a b : path) : path * path :=
  match a, b with
  | x :: a', y :: b' =>
      if bool_decide (x = y) then strip_common a' b' else (a, b)
  | _, _ => (a, b)
  end.

Definition join_sep (l : path) : str :=
  match l with
  | [] => []
  | x :: r => x ++ flat_map (fun c => 47%N :: c) r
  end.

(** [posixpath.relpath]: it never raises on resolved paths. *)
Definition posix_relpath (a start : path) : option str :=
  let '(a', s') := strip_common a start in
  match repeat dotdot (length s') ++ a' with
  | [] => Some dot
  | rel => Some (join_sep rel)
  end.

(** ** The script *)

Definition ASSETS_DIR : path := [lit "assets"].
Definition IMAGES_DIR : path := ASSETS_DIR ++ [lit "images"].
Definition FONTS_DIR : path := ASSETS_DIR ++ [lit "fonts"].
Definition OTHERS_DIR : path := ASSETS_DIR ++ [lit "others"].

(** Lines 15-16: the three directories are created when the module loads. *)
Definition create_directories (fs : gmap path node) : exn + gmap path node :=
  match mkdir_from fs [] IMAGES_DIR with
  | inl e => inl e
  | inr fs1 =>
      match mkdir_from fs1 [] FONTS_DIR with
      | inl e => inl e
      | inr fs2 => mkdir_from fs2 [] OTHERS_DIR
      end
  end.

(** What the script prints, line by line, and the calls of [download_file]
    (which print nothing by themselves). *)
Inductive event :=
  | Materialize (url : str)
  | Downloading (url : str) (p : path)
  | SkippingExists (p : path)
  | FailedDownload (url : str)
  | Processing (f : path)
  | WarningNotUtf8 (f : path)
  | Found (n : nat) (f : path)
  | ErrorRelpath (url : str)
  | Updated (f : path)
  | NoChanges (f : path)
  | MigrationComplete.

(** The state of a run: the dictionary [url_to_local_path], the files, and
    the console, latest line first. *)
Record state := {
  url_to_local_path : gmap str path;
  fs : gmap path node;
  console : list event;
}.

Definition log (e : event) (st : state) : state :=
  {| url_to_local_path := url_to_local_path st;
     fs := fs st;
     console := e :: console st |}.

Definition set_fs (f : gmap path node) (st : state) : state :=
  {| url_to_local_path := url_to_local_path st;
     fs := f;
     console := console st |}.

Definition remember (url : str) (p : path) (st : state) : state :=
  {| url_to_local_path := <[url := p]> (url_to_local_path st);
     fs := fs st;
     console := console st |}.

Definition get_extension (E : env) (url : str) : str :=
  lower E (splitext_ext (urlparse_path url)).

Definition image_exts : list str :=
  List.map lit [".png"; ".jpg"; ".jpeg"; ".gif"; ".webp"; ".svg"; ".ico"]%string.
Definition font_exts : list str :=
  List.map lit [".woff"; ".woff2"; ".ttf"; ".otf"; ".eot"]%string.

Definition get_target_dir (ext : str) : path :=
  if bool_decide (ext ∈ image_exts) then IMAGES_DIR
  else if bool_decide (ext ∈ font_exts) then FONTS_DIR
  else OTHERS_DIR.

(** [hashlib.md5(url.encode('utf-8')).hexdigest()[:12]] *)
Definition url_hash (url : str) : str :=
  take 12 (MD5.hexdigest (utf8_encode url)).

Definition safe_char (c : N) : bool :=
  is_ascii_lower c || is_ascii_upper c || is_ascii_digit c
  || (c =? 46)%N || (c =? 95)%N || (c =? 45)%N.

(** [re.sub(r'[^a-zA-Z0-9._-]', '', name)]: each character of the negated
    class is replaced by the empty string. *)
Fixpoint remove_weird (name : str) : str :=
  match name with
  | [] => []
  | c :: name' =>
      if negb (safe_char c) then [] ++ remove_weird name'
      else c :: remove_weird name'
  end.

(** Lines 41-55 of [download_file]: the name of the local file. *)
Definition local_filename (E : env) (url : str) : str :=
  let ext := get_extension E url in
  let url_hash := url_hash url in
  let original_name := basename (urlparse_path url) in
  let original_name := remove_weird original_name in
  if bool_decide (original_name = []) || (50 <? length original_name)%nat
  then url_hash ++ ext
  else original_name.

(** [target_dir / filename] for a name without a slash: pathlib drops a
    component that is a single dot. *)
Definition join_path (d : path) (filename : str) : path :=
  if bool_decide (filename = dot) || bool_decide (filename = [])
  then d else d ++ [filename].

Definition local_path_of (E : env) (url : str) : path :=
  join_path (get_target_dir (get_extension E url)) (local_filename E url).

(** The exception that ends the [try] of [download_file] before it is
    known whether the file exists: that of [urlparse] in
    [get_extension(url)], or that of [os.stat] in [local_path.exists()]. *)
Definition early_error (E : env) (fs : gmap path node) (url : str)
  : option exn :=
  if urlparse_raises E url then Some ValueError
  else stat_error E fs (local_path_of E url).

(** [download_file(url)]: the result ([None] as in the source) and the
    state after the call.  When [urlparse] raises, or [os.stat] fails with
    an error that [exists] lets through, the call fails before anything is
    fetched. *)
Definition download_file (E : env) (url : str) (st : state)
  : option path * state :=
  let st := log (Materialize url) st in
  match url_to_local_path st !! url with
  | Some p => (Some p, st)
  | None =>
      let local_path := local_path_of E url in
      match early_error E (fs st) url with
      | Some _ => (None, log (FailedDownload url) st)
      | None =>
          if path_exists (fs st) local_path then
            let st := log (SkippingExists local_path) st in
            (Some local_path, remember url local_path st)
          else
            let st := log (Downloading url local_path) st in
            match urlopen E url with
            | ConnFail => (None, log (FailedDownload url) st)
            | ReadFail =>
                match open_w (fs st) local_path with
                | inl _ => (None, log (FailedDownload url) st)
                | inr (_, fs') => (None, log (FailedDownload url) (set_fs fs' st))
                end
            | Body b =>
                match open_w (fs st) local_path with
                | inl _ => (None, log (FailedDownload url) st)
                | inr (q, fs') =>
                    (Some local_path,
                     remember url local_path
                       (set_fs (<[q := File b true]> fs') st))
                end
            end
      end
  end.

Definition search_index : str := lit "searchIndex".

(** The body of the loop of [process_file] from line 118 on, for the
    unescaped URL, on the pair of [new_content] and the state. *)
Definition rewrite_url (E : env) (file_path : path)
    (acc : str * state) (url : str) : str * state :=
  let '(new_content, st) := acc in
  if contains search_index url then (new_content, st)
  else
    match download_file E url st with
    | (None, st) => (new_content, st)
    | (Some local_path_obj, st) =>
        let abs_file_path := resolve file_path in
        let abs_asset_path := resolve local_path_obj in
        match relpath E abs_asset_path (parent abs_file_path) with
        | Some rel_path => (replace url rel_path new_content, st)
        | None => (new_content, log (ErrorRelpath url) st)
        end
    end.

(** The body of the loop for one match [m] on which [html.unescape]
    returns. *)
Definition rewrite_match (E : env) (file_path : path)
    (acc : str * state) (m : str) : str * state :=
  rewrite_url E file_path acc (unescape E m).

(** The loop of [process_file] over the matches: it ends with the
    exception of [html.unescape], which nothing catches, or with the last
    match. *)
Fixpoint rewrite_loop (E : env) (file_path : path) (ms : list str)
    (acc : str * state) : option exn * (str * state) :=
  match ms with
  | [] => (None, acc)
  | m :: rest =>
      match html_unescape E m with
      | inl e => (Some e, acc)
      | inr url => rewrite_loop E file_path rest (rewrite_url E file_path acc url)
      end
  end.

Inductive outcome :=
  | Returned (st : state)
  | Raised (e : exn) (st : state).

Definition state_of (o : outcome) : state :=
  match o with
  | Returned st => st
  | Raised _ st => st
  end.

(** [process_file(file_path)] *)
Definition process_file (E : env) (file_path : path) (st : state) : outcome :=
  let st := log (Processing file_path) st in
  match read_text (fs st) file_path with
  | ReadFails e => Raised e st
  | ReadUndecodable => Returned (log (WarningNotUtf8 file_path) st)
  | ReadOk content =>
      let matches := set_iter E (findall content) in
      let st := log (Found (length matches) file_path) st in
      let sorted_matches := sorted_by_len_desc matches in
      let '(raised, (new_content, st)) :=
        rewrite_loop E file_path sorted_matches (content, st) in
      match raised with
      | Some e => Raised e st
      | None =>
          if bool_decide (new_content = content)
          then Returned (log (NoChanges file_path) st)
          else
            match write_text (fs st) file_path new_content with
            | inl e => Raised e st
            | inr fs' => Returned (log (Updated file_path) (set_fs fs' st))
            end
      end
  end.

Fixpoint process_all (E : env) (files : list path) (st : state) : outcome :=
  match files with
  | [] => Returned st
  | f :: rest =>
      match process_file E f st with
      | Returned st' => process_all E rest st'
      | Raised e st' => Raised e st'
      end
  end.

(** [main()] *)
Definition main (E : env) (st : state) : outcome :=
  let html_files := rglob (fs st) in
  match process_all E html_files st with
  | Returned st' => Returned (log MigrationComplete st')
  | Raised e st' => Raised e st'
  end.

(** A new process on the tree [f]: nothing is cached, nothing printed. *)
Definition fresh (f : gmap path node) : state :=
  {| url_to_local_path := ∅; fs := f; console := [] |}.

(** ** The specification's wording of the file name (section 4.3, step 4) *)

(** The basename with all characters outside the safe class stripped; the
    identifier and the extension instead when that is empty or longer than
    50 characters. *)
Definition spec_filename (base identifier extension : str) : str :=
  let sanitized := List.filter safe_char base in
  if bool_decide (sanitized = []) || (50 <? length sanitized)%nat
  then identifier ++ extension
  else sanitized.

Definition lower_hex (c : N) : bool :=
  is_ascii_digit c || ((97 <=? c)%N && (c <=? 102)%N).

(** The text has a match of the URL pattern at some position. *)
Fixpoint matches_somewhere (s : str) : bool :=
  match s with
  | [] => false
  | _ :: s' =>
      match match_at s with
      | Some _ => true
      | None => matches_somewhere s'
      end
  end.

(** ** A POSIX host, for the examples *)

(** The entries of [html.entities.html5] that the examples meet. *)
Definition html5_basic (s : str) : option str :=
  if bool_decide (s = lit "amp;") || bool_decide (s = lit "amp")
  then Some (lit "&")
  else if bool_decide (s = lit "lt;") || bool_decide (s = lit "lt")
  then Some (lit "<")
  else if bool_decide (s = lit "gt;") || bool_decide (s = lit "gt")
  then Some (lit ">")
  else if bool_decide (s = lit "times;") || bool_decide (s = lit "times")
  then Some [215%N]
  else None.

(** [os.stat] on a file system whose names have 255 bytes at most: the
    [OSError] for a longer name, when the directories before it are there. *)
Fixpoint name_too_long (fs : gmap path node) (cur p : path) : option exn :=
  match p with
  | [] => None
  | c :: rest =>
      match node_at fs cur with
      | Some (Dir _) =>
          if bool_decide (c = dotdot) then name_too_long fs (removelast cur) rest
          else if bool_decide (c = dot) then name_too_long fs cur rest
          else if (255 <? length (utf8_encode c))%nat then Some OSError
          else name_too_long fs (cur ++ [c]) rest
      | _ => None
      end
  end.

(** CPython 3.11 on POSIX, as far as ASCII documents can tell, with the
    network [net]; the set is iterated in the order of first occurrence. *)
Definition posix_env (net : str -> response) : env :=
  {| html5 := html5_basic;
     str_lower := List.map ascii_lower;
     set_iter := remove_dups;
     relpath := posix_relpath;
     urlopen := net;
     netloc_rejected := fun n => xorb (has_char 91 n) (has_char 93 n);
     int_max_str_digits := 4300;
     stat_error := fun fs p => name_too_long fs [] p |}.

(** The tree right after the module has loaded in an empty directory. *)
Definition empty_tree : gmap path node :=
  match create_directories ∅ with
  | inr f => f
  | inl _ => ∅
  end.

Definition html_file (text : string) (writable : bool) : node :=
  File (utf8_encode (lit text)) writable.

Definition text_at (f : gmap path node) (p : path) : option str :=
  match read_text f p with
  | ReadOk s => Some s
  | _ => None
  end.

(** ** Notions used in the statements *)

(** What a call of [download_file] prints concerns its URL alone. *)
Definition about (url : str) (e : event) : Prop :=
  match e with
  | Materialize u | Downloading u _ | FailedDownload u => u = url
  | SkippingExists _ => True
  | _ => False
  end.

(** An event that shows a URL reaching the materializer or the network
    shows a URL without the exclusion marker. *)
Definition marker_free (e : event) : Prop :=
  match e with
  | Materialize u | Downloading u _ => contains search_index u = false
  | _ => True
  end.

(** How the state moves in a run: files and directories that exist are
    kept as they are by the materializer, entries of the dictionary stay,
    and the console grows by events that satisfy [P]. *)
Definition evolves (P : event -> Prop) (st st' : state) : Prop :=
  fs st ⊆ fs st'
  /\ (forall u p, url_to_local_path st !! u = Some p ->
                  url_to_local_path st' !! u = Some p)
  /\ exists new, console st' = new ++ console st /\ Forall P new.

(** Directories stay directories and writable files stay writable files. *)
Definition keeps (f f' : gmap path node) : Prop :=
  forall k,
    match f !! k with
    | Some (Dir w) => f' !! k = Some (Dir w)
    | Some (File _ true) => exists d, f' !! k = Some (File d true)
    | _ => True
    end.



(** Successive calls of [download_file], as a run makes them. *)
Definition download_all (E : env) (urls : list str) (st : state) : state :=
  fold_left (fun s u => snd (download_file E u s)) urls st.

(** ** Trees and networks of the examples *)

Definition net_ok : str -> response := fun _ => Body (lit "DATA").
Definition net_down : str -> response := fun _ => ConnFail.
Definition net_cut : str -> response := fun _ => ReadFail.

Definition index_html : path := [lit "index.html"].
Definition about_html : path := [lit "about.html"].

Definition url_a : str := lit "https://framerusercontent.com/images/a.png".
Definition path_a : path := IMAGES_DIR ++ [lit "a.png"].

(** One document that refers to one image. *)
Definition tree_one : gmap path node :=
  <[index_html := html_file "<img src='https://framerusercontent.com/images/a.png'>" true]>
    empty_tree.

(** One document without a URL of the CDN. *)
Definition tree_plain : gmap path node :=
  <[index_html := html_file "<p>https://example.com/a.png</p>" true]> empty_tree.

(** A reference written with an entity, as HTML attributes have it. *)
Definition url_amp : str := lit "https://framerusercontent.com/a&amp;b.png".
Definition text_amp : str := lit "<img src='https://framerusercontent.com/a&amp;b.png'>".
Definition tree_amp : gmap path node :=
  <[index_html := File (utf8_encode text_amp) true]> empty_tree.

(** A match that is the beginning of an excluded match. *)
Definition url_short : str := lit "https://framerusercontent.com/a".
Definition url_index : str := lit "https://framerusercontent.com/a/searchIndex.json".
Definition text_index : str :=
  lit "<a href='https://framerusercontent.com/a'> <a href='https://framerusercontent.com/a/searchIndex.json'>".
Definition tree_index : gmap path node :=
  <[index_html := File (utf8_encode text_index) true]> empty_tree.

(** Two URLs with the same basename; the first cannot be fetched. *)
Definition url_gone : str := lit "https://framerusercontent.com/aa/z.png".
Definition net_one_gone : str -> response :=
  fun u => if bool_decide (u = url_gone) then ConnFail else Body (lit "DATA").
Definition tree_twins : gmap path node :=
  <[index_html :=
      html_file "<img src='https://framerusercontent.com/aa/z.png'> <img src='https://framerusercontent.com/b/z.png'>" true]>
    empty_tree.

(** Two documents; the first one that the scan yields is read-only. *)
Definition tree_read_only : gmap path node :=
  <[about_html := html_file "<img src='https://framerusercontent.com/images/a.png'>" true]>
    (<[index_html := html_file "<img src='https://framerusercontent.com/images/a.png'>" false]>
       empty_tree).


Definition url_dot : str := lit "https://framerusercontent.com/.".
Definition url_dotdot : str := lit "https://framerusercontent.com/..".

(** ** Notions used in the further properties *)

(** The order of [sorted(..., key=len, reverse=True)]. *)
Definition longer_first (a b : str) : Prop := length b <= length a.

(** An event that the loop step for the URL [url] can print. *)
Definition concerns (url : str) (e : event) : Prop :=
  about url e \/ e = ErrorRelpath url.

(** The documents that the console shows as processed, latest first. *)
Definition processed (c : list event) : list path :=
  flat_map (fun e => match e with Processing f => [f] | _ => [] end) c.

(** Every entry stays what it is, a directory or a file with the same
    permission; only the data of a file may differ. *)
Definition shape_kept (f f' : gmap path node) : Prop :=
  forall k,
    match f !! k with
    | Some (Dir w) => f' !! k = Some (Dir w)
    | Some (File _ w) => exists d, f' !! k = Some (File d w)
    | Some (Locked d) => f' !! k = Some (Locked d)
    | None => True
    end.

(** Every entry of the dictionary is the storage path computed for its URL,
    and something exists at that path. *)
Definition cache_sound (E : env) (st : state) : Prop :=
  forall u p,
    url_to_local_path st !! u = Some p ->
    p = local_path_of E u /\ path_exists (fs st) p = true.

(** An event of the loop of [process_file] over the matches [ms]: it
    concerns the unescaped form of one of them, which has no marker. *)
Definition loop_event (E : env) (ms : list str) (e : event) : Prop :=
  exists m, m ∈ ms /\ concerns (unescape E m) e
            /\ contains search_index (unescape E m) = false.

(** A line that [process_file] prints about the document itself, after the
    first one. *)
Definition report_event (fp : path) (e : event) : Prop :=
  match e with
  | Found _ f | NoChanges f | Updated f | WarningNotUtf8 f => f = fp
  | _ => False
  end.

(** A Unicode scalar value: a code point that is not a surrogate. *)
Definition scalar (c : N) : bool :=
  ((c <? 0xD800) || (0xDFFF <? c) && (c <? 0x110000))%N.

(** A tree with a directory whose name ends in [.html]. *)
Definition old_html : path := [lit "old.html"].
Definition tree_html_dir : gmap path node := <[old_html := Dir true]> tree_one.

(** The tree after a text has been written to the document of [tree_plain]. *)
Definition tree_written : gmap path node :=
  match write_text tree_plain index_html (lit "<p>ok</p>") with
  | inr f => f
  | inl _ => ∅
  end.

(** ** Notions used in the statements on whole runs *)




(** A match [m] of the document [fp] with the text [content] on which a run
    that starts on the tree [f] cannot act: [html.unescape] raises on it;
    or it is excluded; or [download_file] fails on it before it knows
    whether its storage path exists;
    or something exists at the storage path and either no relative path
    can be computed or the replacement of the unescaped URL leaves the
    text as it is; or nothing exists there and either the request fails or
    the local file cannot be opened. *)
Definition inert (E : env) (f : gmap path node) (fp : path) (content m : str)
  : bool :=
  match html_unescape E m with
  | inl _ => true
  | inr url =>
      contains search_index url ||
      let lp := local_path_of E url in
      match early_error E f url with
      | Some _ => true
      | None =>
          if path_exists f lp then
            match relpath E (resolve lp) (parent (resolve fp)) with
            | None => true
            | Some rel => bool_decide (replace url rel content = content)
            end
          else
            match urlopen E url with
            | ConnFail => true
            | _ => match open_w f lp with
                   | inl _ => true
                   | inr _ => false
                   end
            end
      end
  end.

(** Every match of every readable document of the tree is inert. *)
Definition all_inert (E : env) (f : gmap path node) : bool :=
  forallb (fun p => match read_text f p with
                    | ReadOk content => forallb (inert E f p content) (findall content)
                    | _ => true
                    end)
    (rglob f).

(** A URL whose extension has 300 characters: the sanitized basename is
    longer than 50 characters, so that the file name is the identifier
    followed by the extension, 313 bytes in all. *)
Definition url_long : str :=
  lit "https://framerusercontent.com/a." ++ repeat 120%N 300.





(** ** Properties *)

Arguments rewrite_match : simpl never.
Arguments download_file : simpl never.
Arguments process_file : simpl never.

(** *** MD5 test vectors (RFC 1321, appendix A.5) *)

Example md5_empty :
  MD5.hexdigest [] = lit "d41d8cd98f00b204e9800998ecf8427e".
Proof. vm_compute. reflexivity. Qed.

Example md5_abc :
  MD5.hexdigest (lit "abc") = lit "900150983cd24fb0d6963f7d28e17f72".
Proof. vm_compute. reflexivity. Qed.

Example md5_two_blocks :
  MD5.hexdigest
    (lit "12345678901234567890123456789012345678901234567890123456789012345678901234567890")
  = lit "57edf4a22be3c955ac49da2e2107b67a".
Proof. vm_compute. reflexivity. Qed.

(** *** The fallback identifier *)

Lemma bytes_le_length n w : length (MD5.bytes_le n w) = n.
Proof. unfold MD5.bytes_le. rewrite length_map. apply length_seq. Qed.

Lemma bytes_le_byte n w : Forall (fun b => (b < 256)%N) (MD5.bytes_le n w).
Proof.
  unfold MD5.bytes_le. apply Forall_forall. intros b Hb.
  apply list_elem_of_In, in_map_iff in Hb. destruct Hb as [k [<- _]].
  change 255%N with (N.ones 8). rewrite N.land_ones.
  apply N.mod_lt. discriminate.
Qed.

Lemma digest_length msg : length (MD5.digest msg) = 16.
Proof.
  unfold MD5.digest.
  destruct (MD5.blocks _ _ _) as [[[a b] c] d].
  rewrite !length_app, !bytes_le_length. reflexivity.
Qed.

Lemma digest_bytes msg : Forall (fun b => (b < 256)%N) (MD5.digest msg).
Proof.
  unfold MD5.digest.
  destruct (MD5.blocks _ _ _) as [[[a b] c] d].
  repeat (apply Forall_app; split); apply bytes_le_byte.
Qed.

Lemma hex_char_lower n : (n < 16)%N -> lower_hex (MD5.hex_char n) = true.
Proof.
  intros Hn. unfold MD5.hex_char, lower_hex, is_ascii_digit.
  destruct (N.ltb_spec n 10).
  - apply orb_true_iff. left. apply andb_true_iff. split; apply N.leb_le; lia.
  - apply orb_true_iff. right. apply andb_true_iff. split; apply N.leb_le; lia.
Qed.

Lemma hexdigest_length msg : length (MD5.hexdigest msg) = 32.
Proof.
  unfold MD5.hexdigest.
  assert (H : forall l : bytes,
             length (flat_map (fun b => [MD5.hex_char (N.shiftr b 4);
                                         MD5.hex_char (N.land b 0xF)]) l)
             = 2 * length l).
  { induction l as [|b l IH]; simpl; [reflexivity | rewrite IH; lia]. }
  rewrite H, digest_length. reflexivity.
Qed.

Lemma hexdigest_lower_hex msg : Forall (fun c => lower_hex c = true) (MD5.hexdigest msg).
Proof.
  unfold MD5.hexdigest.
  pose proof (digest_bytes msg) as H.
  induction H as [|b l Hb _ IH]; simpl; [constructor|].
  constructor; [|constructor; [|exact IH]].
  - apply hex_char_lower.
    rewrite N.shiftr_div_pow2. change (2 ^ 4)%N with 16%N.
    apply N.Div0.div_lt_upper_bound. lia.
  - apply hex_char_lower.
    change 15%N with (N.ones 4). rewrite N.land_ones.
    apply N.mod_lt. discriminate.
Qed.

Lemma url_hash_length url : length (url_hash url) = 12.
Proof. unfold url_hash. rewrite length_take, hexdigest_length. reflexivity. Qed.

(** C10: the fallback identifier is the first 12 characters of the MD5 hex
    digest of the UTF-8 encoding of the URL; it depends on the URL string
    alone and is always 12 lower-case hexadecimal characters. *)
Theorem url_hash_md5_prefix (url : str) :
  url_hash url = take 12 (MD5.hexdigest (utf8_encode url))
  /\ length (url_hash url) = 12
  /\ Forall (fun c => lower_hex c = true) (url_hash url).
Proof.
  split; [reflexivity|]. unfold url_hash. split.
  - apply url_hash_length.
  - apply Forall_take, hexdigest_lower_hex.
Qed.

Example url_hash_example :
  url_hash (lit "https://framerusercontent.com/..") = lit "e88bdffa7869".
Proof. vm_compute. reflexivity. Qed.

(** *** The local file name *)

Lemma remove_weird_filter name : remove_weird name = List.filter safe_char name.
Proof.
  induction name as [|c name IH]; simpl; [reflexivity|].
  destruct (safe_char c); simpl; rewrite IH; reflexivity.
Qed.

Lemma filter_safe name :
  Forall (fun c => safe_char c = true) (List.filter safe_char name).
Proof.
  apply Forall_forall. intros c Hc.
  apply list_elem_of_In, filter_In in Hc. tauto.
Qed.

(** C6: the local file name is the basename of the URL's path with every
    character outside [A-Za-z0-9._-] stripped, unless that is empty or
    longer than 50 characters, in which case it is the 12-character
    identifier followed by the extension. *)
Theorem local_filename_spec (E : env) (url : str) :
  local_filename E url
  = spec_filename (basename (urlparse_path url)) (url_hash url)
      (get_extension E url)
  /\ Forall (fun c => safe_char c = true)
       (remove_weird (basename (urlparse_path url)))
  /\ length (url_hash url) = 12.
Proof.
  split; [|split].
  - unfold local_filename, spec_filename.
    rewrite remove_weird_filter. reflexivity.
  - rewrite remove_weird_filter. apply filter_safe.
  - apply url_hash_length.
Qed.

Example filename_kept :
  local_filename (posix_env (fun _ => ConnFail))
    (lit "https://framerusercontent.com/images/abc123.png")
  = lit "abc123.png".
Proof. vm_compute. reflexivity. Qed.

Example filename_fallback_empty :
  local_filename (posix_env (fun _ => ConnFail))
    (lit "https://framerusercontent.com/images/%%%")
  = url_hash (lit "https://framerusercontent.com/images/%%%").
Proof. vm_compute. reflexivity. Qed.

Example filename_fallback_long :
  local_filename (posix_env (fun _ => ConnFail))
    (lit "https://framerusercontent.com/images/aaaaaaaaaabbbbbbbbbbccccccccccddddddddddeeeeeeeeeef.PNG")
  = url_hash (lit "https://framerusercontent.com/images/aaaaaaaaaabbbbbbbbbbccccccccccddddddddddeeeeeeeeeef.PNG")
    ++ lit ".png".
Proof. vm_compute. reflexivity. Qed.

(** *** Extraction *)

Lemma findall_from_none s :
  matches_somewhere s = false -> forall k, findall_from k s = [].
Proof.
  induction s as [|c s IH]; intros H k; [reflexivity|].
  simpl in H. destruct (match_at (c :: s)) eqn:Hm; [discriminate|].
  destruct k as [|k]; simpl.
  - rewrite Hm. apply IH, H.
  - apply IH, H.
Qed.

(** [re.findall] returns nothing exactly when the pattern matches nowhere. *)
Lemma findall_nil_iff s : findall s = [] <-> matches_somewhere s = false.
Proof.
  split.
  - unfold findall. induction s as [|c s IH]; intros H; [reflexivity|].
    simpl in *. destruct (match_at (c :: s)); [discriminate|]. apply IH, H.
  - intros H. apply findall_from_none, H.
Qed.

Lemma insert_by_len_perm x l : Permutation (insert_by_len x l) (x :: l).
Proof.
  induction l as [|y l IH]; simpl; [reflexivity|].
  destruct (length y <? length x)%nat; [reflexivity|].
  rewrite IH. apply perm_swap.
Qed.

Lemma sorted_by_len_desc_perm l : Permutation (sorted_by_len_desc l) l.
Proof.
  unfold sorted_by_len_desc.
  assert (H : forall acc,
             Permutation (fold_left (fun acc x => insert_by_len x acc) l acc)
               (acc ++ l)).
  { induction l as [|x l IH]; intros acc; simpl.
    - rewrite app_nil_r. reflexivity.
    - rewrite IH, insert_by_len_perm. apply Permutation_middle. }
  apply (H []).
Qed.

(** The matches that [process_file] loops over are matches of the text. *)
Lemma sorted_matches_found E content m :
  env_ok E ->
  m ∈ sorted_by_len_desc (set_iter E (findall content)) -> m ∈ findall content.
Proof.
  intros HE Hm.
  rewrite sorted_by_len_desc_perm, (HE (findall content)) in Hm.
  rewrite elem_of_remove_dups in Hm. exact Hm.
Qed.

Lemma sorted_matches_nil E content :
  env_ok E -> findall content = [] ->
  sorted_by_len_desc (set_iter E (findall content)) = [].
Proof.
  intros HE H. rewrite H.
  pose proof (HE []) as Hp. simpl in Hp.
  apply Permutation_nil_r in Hp. rewrite Hp. reflexivity.
Qed.

(** *** The materializer *)

Lemma open_w_fresh f p q f' :
  path_exists f p = false -> open_w f p = inr (q, f') ->
  f !! q = None /\ f' = <[q := File [] true]> f
  /\ q <> [] /\ walk f [] p = Some q.
Proof.
  unfold path_exists, open_w. intros Hex Hop.
  destruct (walk f [] p) as [r|]; [|discriminate].
  destruct (node_at f r) as [n|] eqn:Hn; [discriminate|].
  destruct (node_at f (removelast r)) as [[? ?|[|]|?]|]; try discriminate.
  injection Hop as <- <-.
  destruct r; [discriminate|]. repeat split; [exact Hn|discriminate].
Qed.

(** Case analysis of a call of [download_file]. *)
Ltac download_cases E url st :=
  unfold download_file;
  cbn [url_to_local_path fs console log set_fs remember];
  destruct (url_to_local_path st !! url) as [cached|] eqn:Hcache;
  [|destruct (early_error E (fs st) url) as [serr|] eqn:Hstat;
    [|destruct (path_exists (fs st) (local_path_of E url)) eqn:Hex;
      [|destruct (urlopen E url) as [| |body] eqn:Hnet;
        [|destruct (open_w (fs st) (local_path_of E url)) as [err|[q f']] eqn:Hop
         |destruct (open_w (fs st) (local_path_of E url)) as [err|[q f']] eqn:Hop]]]];
  cbn [url_to_local_path fs console log set_fs remember fst snd].

(** A URL found in the dictionary is answered from it: nothing is fetched,
    nothing changes but the record of the call. *)
Lemma download_file_cached E url st p :
  url_to_local_path st !! url = Some p ->
  download_file E url st = (Some p, log (Materialize url) st).
Proof. intros H. unfold download_file. simpl. rewrite H. reflexivity. Qed.

(** An entry of the dictionary is never changed. *)
Lemma download_file_cache_stable E url st u p :
  url_to_local_path st !! u = Some p ->
  url_to_local_path (snd (download_file E url st)) !! u = Some p.
Proof.
  intros H. download_cases E url st; simpl; try exact H;
    (rewrite lookup_insert_ne; [exact H | congruence]).
Qed.

(** A successful call leaves the URL in the dictionary. *)
Lemma download_file_success E url st p st' :
  download_file E url st = (Some p, st') ->
  url_to_local_path st' !! url = Some p.
Proof.
  download_cases E url st; intros H; try discriminate;
    injection H as <- <-; simpl; try exact Hcache; apply lookup_insert_eq.
Qed.

(** A failed call leaves the dictionary as it was: the failure is not
    recorded.  It fails before it knows whether the file exists, with
    nothing fetched and no file touched, or after it has announced the
    fetch. *)
Lemma download_file_failure E url st st' :
  download_file E url st = (None, st') ->
  url_to_local_path st' = url_to_local_path st
  /\ url_to_local_path st !! url = None
  /\ (early_error E (fs st) url <> None
      /\ fs st' = fs st
      /\ console st' = FailedDownload url :: Materialize url :: console st
      \/ early_error E (fs st) url = None
         /\ path_exists (fs st) (local_path_of E url) = false
         /\ console st'
            = FailedDownload url :: Downloading url (local_path_of E url)
                :: Materialize url :: console st).
Proof.
  download_cases E url st; intros H; try discriminate;
    injection H as <-; cbn [url_to_local_path fs console log set_fs];
    (split; [reflexivity|]); (split; [reflexivity|]);
    solve [ left; repeat split; congruence | right; repeat split ].
Qed.

(** No call touches a file or directory that exists. *)
Lemma download_file_fs E url st :
  fs st ⊆ fs (snd (download_file E url st)).
Proof.
  download_cases E url st; simpl; try reflexivity.
  - destruct (open_w_fresh _ _ _ _ Hex Hop) as (Hq & -> & _).
    apply insert_subseteq, Hq.
  - destruct (open_w_fresh _ _ _ _ Hex Hop) as (Hq & -> & _).
    rewrite insert_insert_eq. apply insert_subseteq, Hq.
Qed.

Lemma download_file_console E url st :
  exists new, console (snd (download_file E url st)) = new ++ console st
              /\ Forall (about url) new.
Proof.
  download_cases E url st; simpl.
  - exists [Materialize url]. split; [reflexivity|]. repeat constructor.
  - exists [FailedDownload url; Materialize url].
    split; [reflexivity|]. repeat constructor.
  - exists [SkippingExists (local_path_of E url); Materialize url].
    split; [reflexivity|]. repeat constructor.
  - exists [FailedDownload url; Downloading url (local_path_of E url); Materialize url].
    split; [reflexivity|]. repeat constructor.
  - exists [FailedDownload url; Downloading url (local_path_of E url); Materialize url].
    split; [reflexivity|]. repeat constructor.
  - exists [FailedDownload url; Downloading url (local_path_of E url); Materialize url].
    split; [reflexivity|]. repeat constructor.
  - exists [FailedDownload url; Downloading url (local_path_of E url); Materialize url].
    split; [reflexivity|]. repeat constructor.
  - exists [Downloading url (local_path_of E url); Materialize url].
    split; [reflexivity|]. repeat constructor.
Qed.

(** The three directories of the assets. *)
Lemma get_target_dir_cases ext :
  get_target_dir ext = IMAGES_DIR \/ get_target_dir ext = FONTS_DIR
  \/ get_target_dir ext = OTHERS_DIR.
Proof. unfold get_target_dir. repeat case_bool_decide; auto. Qed.

(** *** How the state moves *)

Lemma evolves_refl P st : evolves P st st.
Proof.
  split; [reflexivity|]. split; [auto|]. exists []. split; [reflexivity|constructor].
Qed.

Lemma evolves_trans P st1 st2 st3 :
  evolves P st1 st2 -> evolves P st2 st3 -> evolves P st1 st3.
Proof.
  intros (Hf1 & Hc1 & n1 & Hn1 & HP1) (Hf2 & Hc2 & n2 & Hn2 & HP2).
  split; [etrans; eassumption|]. split; [auto|].
  exists (n2 ++ n1). split.
  - rewrite Hn2, Hn1, app_assoc. reflexivity.
  - apply Forall_app. split; assumption.
Qed.

Lemma evolves_log (P : event -> Prop) e st st' :
  P e -> evolves P st st' -> evolves P st (log e st').
Proof.
  intros He (Hf & Hc & n & Hn & HP).
  split; [exact Hf|]. split; [exact Hc|].
  exists (e :: n). split; [simpl; rewrite Hn; reflexivity|].
  constructor; assumption.
Qed.

Lemma evolves_weaken (P Q : event -> Prop) st st' :
  (forall e, P e -> Q e) -> evolves P st st' -> evolves Q st st'.
Proof.
  intros HPQ (Hf & Hc & n & Hn & HP).
  split; [exact Hf|]. split; [exact Hc|].
  exists n. split; [exact Hn|]. eapply Forall_impl; eassumption.
Qed.

Lemma download_file_evolves E url st :
  evolves (about url) st (snd (download_file E url st)).
Proof.
  split; [apply download_file_fs|].
  split; [intros u p; apply download_file_cache_stable|].
  apply download_file_console.
Qed.

Lemma about_marker_free url e :
  contains search_index url = false -> about url e -> marker_free e.
Proof. intros H. destruct e; simpl; try tauto; intros ->; exact H. Qed.

(** *** The loop of the rewriter *)

(** A match whose unescaped form has the marker is passed over. *)
Lemma rewrite_match_excluded E fp acc m :
  contains search_index (unescape E m) = true -> rewrite_match E fp acc m = acc.
Proof.
  intros H. unfold rewrite_match, rewrite_url. destruct acc as [c st]. rewrite H. reflexivity.
Qed.

(** [html.unescape] returns a string without an ampersand as it is. *)
Lemma unescape_plain E m : has_char 38 m = false -> unescape E m = m.
Proof. intros H. unfold unescape. rewrite H. reflexivity. Qed.

Lemma rewrite_match_evolves E fp c st m :
  evolves marker_free st (snd (rewrite_match E fp (c, st) m)).
Proof.
  unfold rewrite_match, rewrite_url.
  destruct (contains search_index (unescape E m)) eqn:Hm; [apply evolves_refl|].
  pose proof (download_file_evolves E (unescape E m) st) as Hd.
  apply (evolves_weaken _ marker_free) in Hd;
    [|intros e; apply about_marker_free, Hm].
  destruct (download_file E (unescape E m) st) as [[lp|] st1]; simpl in *;
    [|exact Hd].
  destruct (relpath E _ _); simpl; [exact Hd|].
  apply evolves_log; [exact I|exact Hd].
Qed.

Lemma rewrite_all_evolves E fp ms c st :
  evolves marker_free st (snd (fold_left (rewrite_match E fp) ms (c, st))).
Proof.
  revert c st. induction ms as [|m ms IH]; intros c st; simpl.
  - apply evolves_refl.
  - pose proof (rewrite_match_evolves E fp c st m) as H1.
    destruct (rewrite_match E fp (c, st) m) as [c1 st1]. simpl in H1.
    eapply evolves_trans; [exact H1|apply IH].
Qed.

(** The loop runs the steps for the matches in turn, up to the first on
    which [html.unescape] raises. *)
Lemma html_unescape_returns E m url :
  html_unescape E m = inr url -> url = unescape E m.
Proof.
  unfold html_unescape. destruct (_ && _); [discriminate|].
  intros H. injection H as <-. reflexivity.
Qed.

Lemma rewrite_loop_prefix E fp ms acc :
  exists done rest,
    ms = done ++ rest
    /\ snd (rewrite_loop E fp ms acc) = fold_left (rewrite_match E fp) done acc
    /\ (fst (rewrite_loop E fp ms acc) = None -> rest = []).
Proof.
  revert acc. induction ms as [|m ms IH]; intros acc.
  - exists [], []. repeat split.
  - cbn [rewrite_loop]. destruct (html_unescape E m) as [e|url] eqn:Hu.
    + exists [], (m :: ms). repeat split. discriminate.
    + apply html_unescape_returns in Hu. subst url.
      destruct (IH (rewrite_url E fp acc (unescape E m)))
        as (done & rest & -> & Hs & Hr).
      exists (m :: done), rest. repeat split; assumption.
Qed.

Lemma rewrite_loop_evolves E fp ms c st :
  evolves marker_free st (snd (snd (rewrite_loop E fp ms (c, st)))).
Proof.
  destruct (rewrite_loop_prefix E fp ms (c, st)) as (done & rest & _ & -> & _).
  apply rewrite_all_evolves.
Qed.


(** *** A document *)

Lemma process_file_console E fp st :
  exists new,
    console (state_of (process_file E fp st)) = new ++ console st
    /\ Forall marker_free new /\ Processing fp ∈ new.
Proof.
  unfold process_file. simpl.
  destruct (read_text (fs st) fp) as [content| |e]; simpl.
  - pose proof (rewrite_loop_evolves E fp
                  (sorted_by_len_desc (set_iter E (findall content))) content
                  (log (Found (length (set_iter E (findall content))) fp)
                     (log (Processing fp) st))) as (_ & _ & new & Hn & HP).
    destruct (rewrite_loop _ _ _ _) as [r [nc st2]]. simpl in Hn.
    destruct r as [e|]; simpl;
      [|destruct (bool_decide (nc = content)); simpl;
        [|destruct (write_text (fs st2) fp nc); simpl]].
    + exists (new ++ [Found (length (set_iter E (findall content))) fp;
                     Processing fp]).
      rewrite Hn. split; [rewrite <- app_assoc; reflexivity|].
      split.
      * apply Forall_app. split; [exact HP|]. repeat constructor.
      * apply elem_of_app. right. right. left.
    + exists (NoChanges fp :: new ++ [Found (length (set_iter E (findall content))) fp;
                                     Processing fp]).
      rewrite Hn. split; [simpl; rewrite <- app_assoc; reflexivity|].
      split.
      * constructor; [exact I|]. apply Forall_app. split; [exact HP|].
        repeat constructor.
      * right. apply elem_of_app. right. right. left.
    + exists (new ++ [Found (length (set_iter E (findall content))) fp;
                     Processing fp]).
      rewrite Hn. split; [rewrite <- app_assoc; reflexivity|].
      split.
      * apply Forall_app. split; [exact HP|]. repeat constructor.
      * apply elem_of_app. right. right. left.
    + exists (Updated fp :: new ++ [Found (length (set_iter E (findall content))) fp;
                                   Processing fp]).
      rewrite Hn. split; [simpl; rewrite <- app_assoc; reflexivity|].
      split.
      * constructor; [exact I|]. apply Forall_app. split; [exact HP|].
        repeat constructor.
      * right. apply elem_of_app. right. right. left.
  - exists [WarningNotUtf8 fp; Processing fp]. split; [reflexivity|].
    split; [repeat constructor|]. right. left.
  - exists [Processing fp]. split; [reflexivity|].
    split; [repeat constructor|]. left.
Qed.

(** C8: a document whose text has no match of the URL pattern is not
    written back; the files, the dictionary and the network are left alone
    and the script reports that nothing changed. *)
Theorem no_match_no_write E fp st content :
  env_ok E ->
  read_text (fs st) fp = ReadOk content ->
  matches_somewhere content = false ->
  exists st',
    process_file E fp st = Returned st'
    /\ fs st' = fs st
    /\ url_to_local_path st' = url_to_local_path st
    /\ console st' = NoChanges fp :: Found 0 fp :: Processing fp :: console st.
Proof.
  intros HE Hread Hnone.
  apply findall_nil_iff in Hnone.
  unfold process_file. simpl. rewrite Hread.
  rewrite (sorted_matches_nil E content HE Hnone). simpl.
  pose proof (HE (findall content)) as Hp. rewrite Hnone in Hp. simpl in Hp.
  apply Permutation_nil_r in Hp. rewrite Hnone, Hp.
  rewrite bool_decide_true by reflexivity.
  eexists. split; [reflexivity|]. simpl. auto.
Qed.

(** X18: the loop step of a match whose unescaped form contains the
    marker (in particular of a match that contains it and has no ampersand)
    leaves text and state as they are, and no URL with the marker reaches
    [download_file] or the network while a document is processed. *)
Theorem excluded_never_materialized E fp st :
  (forall acc m, contains search_index (unescape E m) = true ->
                 rewrite_match E fp acc m = acc)
  /\ (forall acc m, has_char 38 m = false -> contains search_index m = true ->
                    rewrite_match E fp acc m = acc)
  /\ exists new,
       console (state_of (process_file E fp st)) = new ++ console st
       /\ forall u, contains search_index u = true ->
                    (Materialize u ∉ new) /\ (forall p, Downloading u p ∉ new).
Proof.
  split; [intros; apply rewrite_match_excluded; assumption|].
  split.
  { intros acc m Hamp Hm. apply rewrite_match_excluded.
    rewrite unescape_plain; assumption. }
  destruct (process_file_console E fp st) as (new & Hn & HP & _).
  exists new. split; [exact Hn|].
  intros u Hu. rewrite Forall_forall in HP. split.
  - intros Hin. apply HP in Hin. simpl in Hin. congruence.
  - intros p Hin. apply HP in Hin. simpl in Hin. congruence.
Qed.

(** *** Documents that can be written back *)



Lemma keeps_subseteq f f' : f ⊆ f' -> keeps f f'.
Proof.
  intros H k. destruct (f !! k) as [[d [|]|w|d]|] eqn:Hk; auto.
  - exists d. eapply lookup_weaken; eassumption.
  - eapply lookup_weaken; eassumption.
Qed.

Lemma keeps_dir f f' cur w :
  keeps f f' -> node_at f cur = Some (Dir w) -> node_at f' cur = Some (Dir w).
Proof.
  intros H. destruct cur as [|c cur]; simpl; [auto|].
  intros Hk. specialize (H (c :: cur)). rewrite Hk in H. exact H.
Qed.

Lemma keeps_walk f f' p : 
  keeps f f' -> forall cur q, walk f cur p = Some q -> walk f' cur p = Some q.
Proof.
  intros H. induction p as [|c p IH]; intros cur q; simpl; [auto|].
  destruct (node_at f cur) as [[d w|w|d]|] eqn:Hn; try discriminate.
  rewrite (keeps_dir f f' cur w H Hn).
  repeat case_bool_decide; apply IH.
Qed.


Lemma local_filename_nonempty E url : local_filename E url <> [].
Proof.
  unfold local_filename.
  destruct (bool_decide (remove_weird (basename (urlparse_path url)) = []))
    eqn:Hempty; simpl.
  - intros H. apply (f_equal length) in H.
    rewrite length_app, url_hash_length in H. simpl in H. lia.
  - apply bool_decide_eq_false in Hempty.
    destruct (50 <? _)%nat; [|exact Hempty].
    intros H. apply (f_equal length) in H.
    rewrite length_app, url_hash_length in H. simpl in H. lia.
Qed.

(** A path that a call computes and returns exists when the call returns:
    it was there already, or the body has just been written to it.  For a
    file name other than a single dot it is one of the three directories
    followed by the file name. *)
Lemma download_file_stored E url st p st' :
  url_to_local_path st !! url = None ->
  download_file E url st = (Some p, st') ->
  p = local_path_of E url
  /\ path_exists (fs st') p = true
  /\ (local_filename E url <> dot ->
      p = get_target_dir (get_extension E url) ++ [local_filename E url]).
Proof.
  intros Hmiss Hd.
  assert (Hp : p = local_path_of E url /\ path_exists (fs st') p = true).
  { pose proof (download_file_fs E url st) as Hsub. revert Hsub Hd.
    download_cases E url st; intros Hsub H; try discriminate;
      try congruence; injection H as <- <-; (split; [reflexivity|]).
    - exact Hex.
    - simpl in Hsub |- *.
      destruct (open_w_fresh _ _ _ _ Hex Hop) as (_ & _ & Hq & Hw).
      unfold path_exists.
      rewrite (keeps_walk _ _ _ (keeps_subseteq _ _ Hsub) _ _ Hw).
      destruct q as [|c q]; [congruence|]. simpl.
      rewrite lookup_insert_eq. reflexivity. }
  destruct Hp as [-> Hex]. split; [reflexivity|]. split; [exact Hex|].
  intros Hdot. unfold local_path_of, join_path.
  rewrite bool_decide_false by exact Hdot.
  rewrite bool_decide_false by apply local_filename_nonempty.
  reflexivity.
Qed.







Lemma download_all_cache_stable E urls st u p :
  url_to_local_path st !! u = Some p ->
  url_to_local_path (download_all E urls st) !! u = Some p.
Proof.
  unfold download_all. revert st.
  induction urls as [|v urls IH]; intros st H; simpl; [exact H|].
  apply IH, download_file_cache_stable, H.
Qed.

(** C2, as the code has it: a failed call of [download_file] reports the
    failure, returns [None] and records nothing in the dictionary, so that
    the URL is not in it afterwards.  The call failed before it knew
    whether the storage path exists ([urlparse] or [os.stat] raised), with
    nothing fetched and no file touched, or after it had found nothing at
    the storage path and announced the fetch.  The next call for the same
    URL is not answered from the dictionary: it goes the same way again and
    reports a failure, a file found, or a new fetch.  The loop step of the
    rewriter for that URL leaves the text as it is. *)
Theorem failure_not_cached E url st st' :
  download_file E url st = (None, st') ->
  url_to_local_path st' = url_to_local_path st
  /\ url_to_local_path st' !! url = None
  /\ (early_error E (fs st) url <> None
      /\ fs st' = fs st
      /\ console st' = FailedDownload url :: Materialize url :: console st
      \/ early_error E (fs st) url = None
         /\ path_exists (fs st) (local_path_of E url) = false
         /\ console st'
            = FailedDownload url :: Downloading url (local_path_of E url)
                :: Materialize url :: console st)
  /\ (exists ev rest,
        console (snd (download_file E url st'))
        = ev :: rest ++ Materialize url :: console st'
        /\ (ev = FailedDownload url
            \/ ev = SkippingExists (local_path_of E url)
            \/ ev = Downloading url (local_path_of E url)))
  /\ forall fp content,
       fst (rewrite_url E fp (content, st) url) = content.
Proof.
  intros H. destruct (download_file_failure E url st st' H) as (Hc & Hn & Hl).
  split; [exact Hc|]. split; [rewrite Hc; exact Hn|]. split; [exact Hl|].
  split.
  - assert (Hn' : url_to_local_path st' !! url = None) by (rewrite Hc; exact Hn).
    clear H Hc Hn Hl. download_cases E url st'; [congruence|..].
    + exists (FailedDownload url), []. auto.
    + exists (SkippingExists (local_path_of E url)), []. auto.
    + exists (FailedDownload url), [Downloading url (local_path_of E url)]. auto.
    + exists (FailedDownload url), [Downloading url (local_path_of E url)]. auto.
    + exists (FailedDownload url), [Downloading url (local_path_of E url)]. auto.
    + exists (FailedDownload url), [Downloading url (local_path_of E url)]. auto.
    + exists (Downloading url (local_path_of E url)), []. auto.
  - intros fp content. unfold rewrite_url.
    destruct (contains search_index url); [reflexivity|].
    rewrite H. reflexivity.
Qed.

(** C5, as the code has it: once [download_file] has returned a path for a
    URL, every later call for it in the same run, whatever was downloaded in
    between, returns the same path from the dictionary, with no fetch and no
    change to the files. *)
Theorem materialize_again E url st p st1 :
  download_file E url st = (Some p, st1) ->
  forall urls,
    download_file E url (download_all E urls st1)
    = (Some p, log (Materialize url) (download_all E urls st1)).
Proof.
  intros H urls. apply download_file_cached, download_all_cache_stable.
  eapply download_file_success, H.
Qed.

(** What the loop does for a match without entities whose download
    succeeds: every occurrence is replaced by the relative path. *)
Lemma rewrite_match_plain E fp content st m lp st1 rel :
  has_char 38 m = false -> contains search_index m = false ->
  download_file E m st = (Some lp, st1) ->
  relpath E (resolve lp) (parent (resolve fp)) = Some rel ->
  rewrite_match E fp (content, st) m = (replace m rel content, st1).
Proof.
  intros Hamp Hm Hd Hrel. unfold rewrite_match, rewrite_url.
  rewrite (unescape_plain E m Hamp), Hm, Hd, Hrel. reflexivity.
Qed.

(** *** Examples on a POSIX host *)

Lemma posix_env_ok net : env_ok (posix_env net).
Proof. intros l. reflexivity. Qed.

Example relative_path_example :
  posix_relpath (resolve (IMAGES_DIR ++ [lit "funny.jpg"]))
    (parent (resolve [lit "Contact"; lit "page.html"]))
  = Some (lit "../assets/images/funny.jpg").
Proof. vm_compute. reflexivity. Qed.

Example rewrite_example :
  text_at (fs (state_of (main (posix_env net_ok) (fresh tree_one)))) index_html
  = Some (lit "<img src='assets/images/a.png'>").
Proof. vm_compute. reflexivity. Qed.

(** C1 fails in the code for a match written with an entity: the image is
    downloaded under the unescaped URL, but the loop then looks for the
    unescaped URL in the text, where only the escaped form occurs, and the
    document keeps its reference to the CDN. *)
Theorem escaped_match_not_rewritten :
  findall text_amp = [url_amp]
  /\ unescape (posix_env net_ok) url_amp
     = lit "https://framerusercontent.com/a&b.png"
  /\ url_to_local_path
       (state_of (process_file (posix_env net_ok) index_html (fresh tree_amp)))
       !! lit "https://framerusercontent.com/a&b.png"
     = Some (IMAGES_DIR ++ [lit "ab.png"])
  /\ fs (state_of (process_file (posix_env net_ok) index_html (fresh tree_amp)))
       !! (IMAGES_DIR ++ [lit "ab.png"])
     = Some (File (lit "DATA") true)
  /\ text_at
       (fs (state_of (process_file (posix_env net_ok) index_html (fresh tree_amp))))
       index_html
     = Some text_amp
  /\ contains url_amp text_amp = true
  /\ head (console
             (state_of (process_file (posix_env net_ok) index_html (fresh tree_amp))))
     = Some (NoChanges index_html).
Proof. repeat split; vm_compute; reflexivity. Qed.

(** C9 fails in the code for a URL whose basename is a dot or two dots,
    which the sanitizer keeps: the path returned and cached is the asset
    directory itself (or leads to its parent), a directory that exists, and
    no file is fetched. *)
Theorem dot_basename_yields_directory :
  fst (download_file (posix_env net_ok) url_dot (fresh empty_tree))
  = Some OTHERS_DIR
  /\ empty_tree !! OTHERS_DIR = Some (Dir true)
  /\ console (snd (download_file (posix_env net_ok) url_dot (fresh empty_tree)))
     = [SkippingExists OTHERS_DIR; Materialize url_dot]
  /\ fst (download_file (posix_env net_ok) url_dotdot (fresh empty_tree))
     = Some (OTHERS_DIR ++ [dotdot])
  /\ resolve (OTHERS_DIR ++ [dotdot]) = ASSETS_DIR
  /\ empty_tree !! ASSETS_DIR = Some (Dir true)
  /\ fs (snd (download_file (posix_env net_ok) url_dotdot (fresh empty_tree)))
     = empty_tree.
Proof. repeat split; vm_compute; reflexivity. Qed.

(** Against C2: the URL cannot be fetched; the first call fails and leaves
    no entry, and the second call for the same URL goes to the network
    again. *)
Lemma failure_is_retried :
  fst (download_file (posix_env net_down) url_a (fresh empty_tree)) = None
  /\ url_to_local_path
       (snd (download_file (posix_env net_down) url_a (fresh empty_tree)))
       !! url_a = None
  /\ console
       (snd (download_file (posix_env net_down) url_a
               (snd (download_file (posix_env net_down) url_a (fresh empty_tree)))))
     = [FailedDownload url_a; Downloading url_a path_a; Materialize url_a;
        FailedDownload url_a; Downloading url_a path_a; Materialize url_a].
Proof. repeat split; vm_compute; reflexivity. Qed.

(** Against C5: when the body of the response cannot be read, the first
    call fails after the local file has been opened, and the second call for
    the same URL finds that file and returns its path: the two results
    differ.  When the request itself fails, the two calls make two fetch
    attempts. *)
Lemma second_call_differs :
  fst (download_file (posix_env net_cut) url_a (fresh empty_tree)) = None
  /\ fs (snd (download_file (posix_env net_cut) url_a (fresh empty_tree)))
       !! path_a
     = Some (File [] true)
  /\ fst (download_file (posix_env net_cut) url_a
            (snd (download_file (posix_env net_cut) url_a (fresh empty_tree))))
     = Some path_a
  /\ List.filter
       (fun e => match e with Downloading _ _ => true | _ => false end)
       (console
          (snd (download_file (posix_env net_down) url_a
                  (snd (download_file (posix_env net_down) url_a
                          (fresh empty_tree))))))
     = [Downloading url_a path_a; Downloading url_a path_a].
Proof. repeat split; vm_compute; reflexivity. Qed.


(** C7 fails in the code for an excluded match that begins with another
    match: nothing is fetched for the excluded URL, but the replacement of
    the shorter URL, which comes after the longer one in the loop and goes
    over the whole text, rewrites the beginning of its occurrence, so that
    the excluded URL is no longer in the document as it was. *)
Theorem excluded_occurrence_rewritten :
  findall text_index = [url_short; url_index]
  /\ contains search_index url_index = true
  /\ contains url_index text_index = true
  /\ text_at
       (fs (state_of (process_file (posix_env net_ok) index_html (fresh tree_index))))
       index_html
     = Some (lit "<a href='assets/others/a'> <a href='assets/others/a/searchIndex.json'>")
  /\ contains url_index
       (lit "<a href='assets/others/a'> <a href='assets/others/a/searchIndex.json'>")
     = false.
Proof. repeat split; vm_compute; reflexivity. Qed.

(** *** The theorems at work *)

Lemma no_match_no_write_witness :
  env_ok (posix_env net_ok)
  /\ read_text (fs (fresh tree_plain)) index_html
     = ReadOk (lit "<p>https://example.com/a.png</p>")
  /\ matches_somewhere (lit "<p>https://example.com/a.png</p>") = false
  /\ exists st',
       process_file (posix_env net_ok) index_html (fresh tree_plain)
       = Returned st'
       /\ fs st' = fs (fresh tree_plain)
       /\ url_to_local_path st' = url_to_local_path (fresh tree_plain)
       /\ console st'
          = NoChanges index_html :: Found 0 index_html
              :: Processing index_html :: console (fresh tree_plain).
Proof.
  assert (H1 : env_ok (posix_env net_ok)) by apply posix_env_ok.
  assert (H2 : read_text (fs (fresh tree_plain)) index_html
               = ReadOk (lit "<p>https://example.com/a.png</p>"))
    by (vm_compute; reflexivity).
  assert (H3 : matches_somewhere (lit "<p>https://example.com/a.png</p>") = false)
    by (vm_compute; reflexivity).
  split; [exact H1|]. split; [exact H2|]. split; [exact H3|].
  exact (no_match_no_write (posix_env net_ok) index_html (fresh tree_plain)
           (lit "<p>https://example.com/a.png</p>") H1 H2 H3).
Defined.

Lemma materialize_again_witness :
  download_file (posix_env net_ok) url_a (fresh empty_tree)
  = (Some path_a, snd (download_file (posix_env net_ok) url_a (fresh empty_tree)))
  /\ forall urls,
       download_file (posix_env net_ok) url_a
         (download_all (posix_env net_ok) urls
            (snd (download_file (posix_env net_ok) url_a (fresh empty_tree))))
       = (Some path_a,
          log (Materialize url_a)
            (download_all (posix_env net_ok) urls
               (snd (download_file (posix_env net_ok) url_a (fresh empty_tree))))).
Proof.
  assert (H : download_file (posix_env net_ok) url_a (fresh empty_tree)
              = (Some path_a,
                 snd (download_file (posix_env net_ok) url_a (fresh empty_tree))))
    by (vm_compute; reflexivity).
  split; [exact H|].
  exact (materialize_again (posix_env net_ok) url_a (fresh empty_tree) path_a _ H).
Defined.

(** ** Further properties of the code *)

(** *** The order of the matches *)

Lemma insert_by_len_sorted x l :
  StronglySorted longer_first l -> StronglySorted longer_first (insert_by_len x l).
Proof.
  induction 1 as [|y l Hl IH Hy]; simpl.
  - constructor; constructor.
  - destruct (Nat.ltb_spec (length y) (length x)) as [Hlt|Hge].
    + constructor; [constructor; assumption|].
      constructor; [unfold longer_first; lia|].
      eapply Forall_impl; [exact Hy|].
      unfold longer_first. intros z Hz. lia.
    + constructor; [exact IH|].
      rewrite insert_by_len_perm. constructor; [exact Hge|exact Hy].
Qed.

(** X1: the loop of [process_file] goes through the same matches as the set
    holds, each as often, and never meets a match that is longer than one
    it has met before. *)
Theorem sorted_matches_longest_first (l : list str) :
  Permutation (sorted_by_len_desc l) l
  /\ StronglySorted longer_first (sorted_by_len_desc l).
Proof.
  split; [apply sorted_by_len_desc_perm|].
  unfold sorted_by_len_desc.
  assert (H : forall acc, StronglySorted longer_first acc ->
                StronglySorted longer_first
                  (fold_left (fun acc x => insert_by_len x acc) l acc)).
  { induction l as [|x l IH]; intros acc Hacc; simpl; [exact Hacc|].
    apply IH, insert_by_len_sorted, Hacc. }
  apply H. constructor.
Qed.

(** *** What the extractor returns *)

Lemma startswith_app p r : startswith p (p ++ r) = true.
Proof.
  induction p as [|a p IH]; simpl; [reflexivity|].
  rewrite N.eqb_refl. exact IH.
Qed.

Lemma startswith_inv p s : startswith p s = true -> exists r, s = p ++ r.
Proof.
  revert s. induction p as [|a p IH]; intros s H; simpl in *.
  - exists s. reflexivity.
  - destruct s as [|b s]; [discriminate|].
    apply andb_true_iff in H. destruct H as [Hab H].
    apply N.eqb_eq in Hab. subst b.
    destruct (IH s H) as [r ->]. exists r. reflexivity.
Qed.

Lemma takewhile_dropwhile f s : takewhile f s ++ dropwhile f s = s.
Proof.
  induction s as [|c s IH]; simpl; [reflexivity|].
  destruct (f c); simpl; [rewrite IH|]; reflexivity.
Qed.

Lemma takewhile_all f s : Forall (fun c => f c = true) (takewhile f s).
Proof.
  induction s as [|c s IH]; simpl; [constructor|].
  destruct (f c) eqn:Hc; constructor; assumption.
Qed.

Lemma contains_startswith m s : startswith m s = true -> contains m s = true.
Proof. intros H. destruct s; simpl in *; rewrite H; reflexivity. Qed.

Lemma contains_app_r m pre s : contains m s = true -> contains m (pre ++ s) = true.
Proof.
  intros H. induction pre as [|c pre IH]; simpl; [exact H|].
  rewrite IH. apply orb_true_r.
Qed.

Lemma match_at_inv s m :
  match_at s = Some m ->
  exists body, m = cdn_prefix ++ body /\ body <> []
               /\ Forall (fun c => url_char c = true) body
               /\ startswith m s = true.
Proof.
  unfold match_at. destruct (startswith cdn_prefix s) eqn:Hp; [|discriminate].
  destruct (startswith_inv _ _ Hp) as [r ->].
  rewrite drop_app_length.
  pose proof (takewhile_all url_char r) as Hall.
  pose proof (takewhile_dropwhile url_char r) as Hsplit.
  destruct (takewhile url_char r) as [|c body] eqn:Hb; [discriminate|].
  intros H. injection H as <-. exists (c :: body).
  split; [reflexivity|]. split; [discriminate|]. split; [exact Hall|].
  rewrite <- Hsplit, app_assoc. apply startswith_app.
Qed.

Lemma findall_from_inv k s m :
  m ∈ findall_from k s ->
  exists pre suf, s = pre ++ suf /\ match_at suf = Some m.
Proof.
  revert k. induction s as [|c s IH]; intros k Hm; simpl in Hm.
  - inversion Hm.
  - assert (Hrec : forall k', m ∈ findall_from k' s ->
                     exists pre suf, c :: s = pre ++ suf /\ match_at suf = Some m).
    { intros k' H. destruct (IH k' H) as (pre & suf & -> & Hs).
      exists (c :: pre), suf. split; [reflexivity|exact Hs]. }
    destruct k as [|k]; [|eapply Hrec; exact Hm].
    destruct (match_at (c :: s)) as [m'|] eqn:Hmatch; [|eapply Hrec; exact Hm].
    apply elem_of_cons in Hm. destruct Hm as [->|Hm]; [|eapply Hrec; exact Hm].
    exists [], (c :: s). split; [reflexivity|exact Hmatch].
Qed.

Lemma cdn_prefix_url_chars : Forall (fun c => url_char c = true) cdn_prefix.
Proof.
  assert (H : forallb url_char cdn_prefix = true) by (vm_compute; reflexivity).
  rewrite forallb_forall in H. apply Forall_forall.
  intros c Hc. apply H, list_elem_of_In, Hc.
Qed.

(** X2: every string that [re.findall] returns for the pattern occurs in
    the text, begins with the CDN prefix, has at least one more character,
    and has no quote, closing parenthesis or white space in it. *)
Theorem findall_matches (content m : str) :
  m ∈ findall content ->
  contains m content = true
  /\ startswith cdn_prefix m = true
  /\ length cdn_prefix < length m
  /\ Forall (fun c => url_char c = true) m.
Proof.
  intros Hm. destruct (findall_from_inv 0 content m Hm) as (pre & suf & -> & Hs).
  destruct (match_at_inv suf m Hs) as (body & -> & Hne & Hbody & Hstart).
  split; [apply contains_app_r, contains_startswith, Hstart|].
  split; [apply startswith_app|]. split.
  - rewrite length_app. destruct body; [congruence|]. simpl. lia.
  - apply Forall_app. split; [apply cdn_prefix_url_chars|exact Hbody].
Qed.

(** *** What the loop sends to the materializer *)

Lemma has_char_app c a b : has_char c (a ++ b) = has_char c a || has_char c b.
Proof. apply existsb_app. Qed.

Lemma charref_sub_plain E p rest :
  has_char 38 p = false ->
  charref_sub E 0 (p ++ rest) = p ++ charref_sub E 0 rest.
Proof.
  induction p as [|c p IH]; intros H; [reflexivity|].
  change (has_char 38 (c :: p)) with ((38 =? c)%N || has_char 38 p) in H.
  apply orb_false_iff in H. destruct H as [Hc Hp].
  rewrite <- app_comm_cons. cbn [charref_sub].
  rewrite N.eqb_sym, Hc, (IH Hp). reflexivity.
Qed.

(** [html.unescape] leaves the text before the first ampersand alone. *)
Lemma unescape_app_plain E p rest :
  has_char 38 p = false -> unescape E (p ++ rest) = p ++ unescape E rest.
Proof.
  intros H. unfold unescape. rewrite has_char_app, H. simpl.
  destruct (has_char 38 rest); [apply charref_sub_plain, H|reflexivity].
Qed.

Lemma unescape_cdn_prefix E m :
  startswith cdn_prefix m = true -> startswith cdn_prefix (unescape E m) = true.
Proof.
  intros H. destruct (startswith_inv _ _ H) as [r ->].
  rewrite unescape_app_plain by (vm_compute; reflexivity).
  apply startswith_app.
Qed.

Lemma rewrite_match_events E fp c st m :
  exists new,
    console (snd (rewrite_match E fp (c, st) m)) = new ++ console st
    /\ Forall (fun e => concerns (unescape E m) e
                        /\ contains search_index (unescape E m) = false) new.
Proof.
  unfold rewrite_match, rewrite_url.
  destruct (contains search_index (unescape E m)) eqn:Hm.
  { exists []. split; [reflexivity|constructor]. }
  destruct (download_file_console E (unescape E m) st) as (new & Hn & Hab).
  assert (Hnew : Forall (fun e => concerns (unescape E m) e /\ false = false) new).
  { eapply Forall_impl; [exact Hab|]. intros e He. split; [left; exact He|reflexivity]. }
  destruct (download_file E (unescape E m) st) as [[lp|] st1]; simpl in *;
    [|exists new; split; assumption].
  destruct (relpath E _ _); simpl; [exists new; split; assumption|].
  exists (ErrorRelpath (unescape E m) :: new). rewrite Hn.
  split; [reflexivity|]. constructor; [|exact Hnew].
  split; [right; reflexivity|reflexivity].
Qed.

Lemma rewrite_all_events E fp ms c st :
  exists new,
    console (snd (fold_left (rewrite_match E fp) ms (c, st))) = new ++ console st
    /\ Forall (loop_event E ms) new.
Proof.
  revert c st. induction ms as [|m ms IH]; intros c st; simpl.
  - exists []. split; [reflexivity|constructor].
  - destruct (rewrite_match_events E fp c st m) as (n1 & Hn1 & H1).
    destruct (rewrite_match E fp (c, st) m) as [c1 st1]. simpl in Hn1.
    destruct (IH c1 st1) as (n2 & Hn2 & H2).
    exists (n2 ++ n1). split; [rewrite Hn2, Hn1, app_assoc; reflexivity|].
    apply Forall_app. split.
    + eapply Forall_impl; [exact H2|].
      intros e (m' & Hm' & He). exists m'. split; [right; exact Hm'|exact He].
    + eapply Forall_impl; [exact H1|].
      intros e He. exists m. split; [left|exact He].
Qed.

Lemma rewrite_loop_events E fp ms c st :
  exists new,
    console (snd (snd (rewrite_loop E fp ms (c, st)))) = new ++ console st
    /\ Forall (loop_event E ms) new.
Proof.
  destruct (rewrite_loop_prefix E fp ms (c, st)) as (done & rest & -> & -> & _).
  destruct (rewrite_all_events E fp done c st) as (new & Hn & HP).
  exists new. split; [exact Hn|].
  eapply Forall_impl; [exact HP|].
  intros e (m & Hm & He). exists m. split; [|exact He].
  apply elem_of_app. left. exact Hm.
Qed.

(** What a call of [process_file] prints: the line for the document, then
    lines of the loop and reports about the document. *)
Lemma process_file_events E fp st :
  exists other,
    console (state_of (process_file E fp st))
    = other ++ Processing fp :: console st
    /\ Forall (fun e =>
                 report_event fp e
                 \/ exists content,
                      read_text (fs st) fp = ReadOk content
                      /\ loop_event E
                           (sorted_by_len_desc (set_iter E (findall content))) e)
         other.
Proof.
  unfold process_file. simpl.
  destruct (read_text (fs st) fp) as [content| |e]; simpl.
  - destruct (rewrite_loop_events E fp
                (sorted_by_len_desc (set_iter E (findall content))) content
                (log (Found (length (set_iter E (findall content))) fp)
                   (log (Processing fp) st))) as (new & Hn & HP).
    destruct (rewrite_loop _ _ _ _) as [r [nc st2]]. simpl in Hn.
    assert (Hloop : Forall (fun e =>
                 report_event fp e
                 \/ exists content0,
                      ReadOk content = ReadOk content0
                      /\ loop_event E
                           (sorted_by_len_desc (set_iter E (findall content0))) e)
              (new ++ [Found (length (set_iter E (findall content))) fp])).
    { apply Forall_app. split.
      - eapply Forall_impl; [exact HP|]. intros e He. right. eauto.
      - constructor; [left; reflexivity|constructor]. }
    destruct r as [e|]; simpl;
      [|destruct (bool_decide (nc = content)); simpl;
        [|destruct (write_text (fs st2) fp nc); simpl]].
    + exists (new ++ [Found (length (set_iter E (findall content))) fp]).
      rewrite Hn. split; [rewrite <- app_assoc; reflexivity|exact Hloop].
    + exists (NoChanges fp :: new ++ [Found (length (set_iter E (findall content))) fp]).
      rewrite Hn. split; [simpl; rewrite <- app_assoc; reflexivity|].
      constructor; [left; reflexivity|exact Hloop].
    + exists (new ++ [Found (length (set_iter E (findall content))) fp]).
      rewrite Hn. split; [rewrite <- app_assoc; reflexivity|exact Hloop].
    + exists (Updated fp :: new ++ [Found (length (set_iter E (findall content))) fp]).
      rewrite Hn. split; [simpl; rewrite <- app_assoc; reflexivity|].
      constructor; [left; reflexivity|exact Hloop].
  - exists [WarningNotUtf8 fp]. split; [reflexivity|].
    constructor; [left; reflexivity|constructor].
  - exists []. split; [reflexivity|constructor].
Qed.

(** X3: whatever the document holds, every URL that [process_file] hands to
    [download_file], and every URL it requests from the network, is the
    unescaped form of a match found in the text of that document and begins
    with the CDN prefix. *)
Theorem fetches_only_cdn_matches E fp st :
  env_ok E ->
  exists new,
    console (state_of (process_file E fp st)) = new ++ console st
    /\ forall u,
         Materialize u ∈ new \/ (exists p, Downloading u p ∈ new) ->
         startswith cdn_prefix u = true
         /\ exists content m,
              read_text (fs st) fp = ReadOk content
              /\ m ∈ findall content /\ u = unescape E m.
Proof.
  intros HE. destruct (process_file_events E fp st) as (other & Hc & Hall).
  exists (other ++ [Processing fp]).
  split; [rewrite Hc, <- app_assoc; reflexivity|].
  intros u Hu.
  assert (Hin : exists e, e ∈ other
                          /\ (e = Materialize u \/ exists p, e = Downloading u p)).
  { destruct Hu as [Hu|[p Hu]]; apply elem_of_app in Hu;
      destruct Hu as [Hu|Hu]; try (apply list_elem_of_singleton in Hu; discriminate).
    - exists (Materialize u). auto.
    - exists (Downloading u p). eauto. }
  destruct Hin as (e & He & Hkind).
  rewrite Forall_forall in Hall. specialize (Hall e He).
  destruct Hall as [Hrep|(content & Hread & m & Hm & Hcon & _)].
  { destruct Hkind as [->|[p ->]]; destruct Hrep. }
  apply (sorted_matches_found E content m HE) in Hm.
  assert (Hu' : u = unescape E m).
  { destruct Hcon as [Hab|Herr].
    - destruct Hkind as [->|[p ->]]; simpl in Hab; exact Hab.
    - destruct Hkind as [->|[p ->]]; discriminate. }
  subst u. split.
  - apply unescape_cdn_prefix.
    destruct (findall_from_inv 0 content m Hm) as (pre & suf & _ & Hs).
    destruct (match_at_inv suf m Hs) as (body & -> & _).
    apply startswith_app.
  - exists content, m. auto.
Qed.

(** *** What a download does to the files *)

(** X4: a call of [download_file] leaves the files as they are, or adds
    exactly one file at a place where nothing was: the body of the
    response, byte for byte, when the call succeeds, and an empty file when
    the body could not be read after the file had been opened.  Nothing
    that exists is overwritten, even when the request would succeed. *)
Theorem download_file_effect E url st r st' :
  download_file E url st = (r, st') ->
  fs st' = fs st
  \/ exists q,
       fs st !! q = None
       /\ walk (fs st) [] (local_path_of E url) = Some q
       /\ path_exists (fs st) (local_path_of E url) = false
       /\ ((r = None /\ urlopen E url = ReadFail
            /\ fs st' = <[q := File [] true]> (fs st))
           \/ exists b, r = Some (local_path_of E url) /\ urlopen E url = Body b
                        /\ fs st' = <[q := File b true]> (fs st)).
Proof.
  download_cases E url st; intros H; injection H as <- <-; simpl; auto.
  - destruct (open_w_fresh _ _ _ _ Hex Hop) as (Hq & -> & _ & Hw).
    right. exists q. repeat split; auto.
  - destruct (open_w_fresh _ _ _ _ Hex Hop) as (Hq & -> & _ & Hw).
    right. exists q. repeat split; auto.
    right. exists body. rewrite insert_insert_eq. auto.
Qed.

Lemma shape_kept_refl f : shape_kept f f.
Proof. intros k. destruct (f !! k) as [[d w|w|d]|]; eauto. Qed.

Lemma shape_kept_trans f1 f2 f3 :
  shape_kept f1 f2 -> shape_kept f2 f3 -> shape_kept f1 f3.
Proof.
  intros H1 H2 k. specialize (H1 k). specialize (H2 k).
  destruct (f1 !! k) as [[d w|w|d]|]; auto.
  - destruct H1 as [d' H1]. rewrite H1 in H2. exact H2.
  - rewrite H1 in H2. exact H2.
  - rewrite H1 in H2. exact H2.
Qed.

Lemma shape_kept_subseteq f f' : f ⊆ f' -> shape_kept f f'.
Proof.
  intros H k. destruct (f !! k) as [[d w|w|d]|] eqn:Hk; auto.
  - exists d. eapply lookup_weaken; eassumption.
  - eapply lookup_weaken; eassumption.
  - eapply lookup_weaken; eassumption.
Qed.

Lemma shape_kept_keeps f f' : shape_kept f f' -> keeps f f'.
Proof.
  intros H k. specialize (H k). destruct (f !! k) as [[d [|]|w|d]|]; auto.
Qed.

Lemma shape_kept_exists f f' p :
  shape_kept f f' -> path_exists f p = true -> path_exists f' p = true.
Proof.
  intros H. unfold path_exists.
  destruct (walk f [] p) as [q|] eqn:Hw; [|discriminate].
  rewrite (keeps_walk f f' p (shape_kept_keeps f f' H) [] q Hw).
  destruct q as [|c q]; [reflexivity|]. simpl.
  specialize (H (c :: q)).
  destruct (f !! (c :: q)) as [[d w|w|d]|]; [| | |discriminate].
  - destruct H as [d' ->]. reflexivity.
  - rewrite H. reflexivity.
  - rewrite H. reflexivity.
Qed.

(** Writing a document changes the data of one file at most. *)
Lemma write_text_shape f p s f' :
  write_text f p s = inr f' ->
  shape_kept f f'
  /\ exists q, walk f [] p = Some q
               /\ forall k, k <> q -> f' !! k = f !! k.
Proof.
  unfold write_text, open_w.
  destruct (walk f [] p) as [q|]; [|discriminate].
  assert (Hshape : forall n,
            match f !! q with
            | Some (Dir _) | Some (Locked _) => False
            | Some (File _ w) => w = true
            | None => True
            end ->
            q <> [] ->
            shape_kept f (<[q := File (utf8_encode s) true]> (<[q := n]> f))).
  { intros n Hq Hne k. destruct (decide (k = q)) as [->|Hk].
    - destruct (f !! q) as [[d w|w|d]|]; [subst w| | |]; try tauto.
      exists (utf8_encode s). apply lookup_insert_eq.
    - rewrite !lookup_insert_ne by congruence.
      destruct (f !! k) as [[d w|w|d]|]; eauto. }
  assert (Hother : forall n k, k <> q ->
            <[q := File (utf8_encode s) true]> (<[q := n]> f) !! k = f !! k).
  { intros n k Hk. rewrite !lookup_insert_ne by congruence. reflexivity. }
  destruct q as [|c q].
  { simpl. discriminate. }
  simpl. destruct (f !! (c :: q)) as [[d [|]|w|d]|] eqn:Hq; try discriminate.
  - intros H. injection H as <-. split; [|eauto].
    apply Hshape; [|discriminate]. rewrite ?Hq. reflexivity.
  - match goal with
    | |- context [node_at f ?x] => destruct (node_at f x) as [[? ?|[|]|?]|]
    end; try discriminate.
    intros H. injection H as <-. split; [|eauto].
    apply Hshape; [|discriminate]. rewrite ?Hq. exact I.
Qed.

(** What [process_file] does to the files: entries keep their kind and
    permission, and the only entry whose data can change is the document. *)
Lemma process_file_files E fp st :
  shape_kept (fs st) (fs (state_of (process_file E fp st)))
  /\ forall k n, fs st !! k = Some n -> walk (fs st) [] fp <> Some k ->
                 fs (state_of (process_file E fp st)) !! k = Some n.
Proof.
  unfold process_file. simpl.
  destruct (read_text (fs st) fp) as [content| |e] eqn:Hread; simpl;
    try (split; [apply shape_kept_refl|auto]).
  pose proof (rewrite_loop_evolves E fp
                (sorted_by_len_desc (set_iter E (findall content))) content
                (log (Found (length (set_iter E (findall content))) fp)
                   (log (Processing fp) st))) as (Hsub & _).
  destruct (rewrite_loop _ _ _ _) as [r [nc st2]]. simpl in Hsub.
  assert (Hk2 : forall k n, fs st !! k = Some n -> fs st2 !! k = Some n).
  { intros k n Hk. eapply lookup_weaken; eassumption. }
  destruct r as [e|]; simpl;
    [split; [apply shape_kept_subseteq, Hsub|auto]|].
  destruct (bool_decide (nc = content)); simpl;
    [split; [apply shape_kept_subseteq, Hsub|auto]|].
  destruct (write_text (fs st2) fp nc) as [e|f'] eqn:Hwr; simpl;
    [split; [apply shape_kept_subseteq, Hsub|auto]|].
  destruct (write_text_shape _ _ _ _ Hwr) as (Hshape & q & Hwalk & Hother).
  split.
  - eapply shape_kept_trans; [apply shape_kept_subseteq, Hsub|exact Hshape].
  - intros k n Hk Hne. rewrite Hother; [apply Hk2, Hk|].
    intros ->. apply Hne.
    unfold read_text in Hread.
    destruct (walk (fs st) [] fp) as [q0|] eqn:Hw0; [|discriminate].
    rewrite (keeps_walk _ _ fp (keeps_subseteq _ _ Hsub) [] q0 Hw0) in Hwalk.
    congruence.
Qed.

Lemma process_all_files E files st :
  Forall (fun fp => walk (fs st) [] fp = Some fp) files ->
  shape_kept (fs st) (fs (state_of (process_all E files st)))
  /\ forall k n, fs st !! k = Some n -> k ∉ files ->
                 fs (state_of (process_all E files st)) !! k = Some n.
Proof.
  revert st. induction files as [|f files IH]; intros st Hcanon; simpl.
  - split; [apply shape_kept_refl|auto].
  - inversion Hcanon as [|? ? Hf Hrest]; subst.
    destruct (process_file_files E f st) as (Hshape & Hframe).
    destruct (process_file E f st) as [st1|e st1] eqn:Hp; simpl in *.
    + destruct (IH st1) as (Hshape' & Hframe').
      { eapply Forall_impl; [exact Hrest|]. intros fp Hfp.
        eapply keeps_walk; [apply shape_kept_keeps, Hshape|exact Hfp]. }
      split; [eapply shape_kept_trans; eassumption|].
      intros k n Hk Hnot. apply Hframe'.
      * apply Hframe; [exact Hk|]. rewrite Hf. intros [= ->].
        apply Hnot. left.
      * intros Hin. apply Hnot. right. exact Hin.
    + split; [exact Hshape|].
      intros k n Hk Hnot. apply Hframe; [exact Hk|].
      rewrite Hf. intros [= ->]. apply Hnot. left.
Qed.

Lemma rglob_canonical f :
  Forall (fun fp => walk f [] fp = Some fp) (rglob f).
Proof.
  apply Forall_forall. intros p Hp. apply list_elem_of_In in Hp.
  unfold rglob in Hp. apply filter_In in Hp. destruct Hp as [_ Hp].
  destruct p as [|c p]; [discriminate|].
  apply andb_true_iff in Hp. destruct Hp as [_ Hp].
  apply bool_decide_eq_true in Hp. exact Hp.
Qed.

(** X5: a run never removes an entry of the tree and never changes its
    kind or its permission; every entry that the scan did not yield (a file
    whose name does not end in [.html], an asset stored earlier, a
    directory) is after the run exactly what it was before. *)
Theorem main_frame E st :
  shape_kept (fs st) (fs (state_of (main E st)))
  /\ forall k n, fs st !! k = Some n -> k ∉ rglob (fs st) ->
                 fs (state_of (main E st)) !! k = Some n.
Proof.
  unfold main.
  destruct (process_all_files E (rglob (fs st)) st (rglob_canonical (fs st)))
    as (Hshape & Hframe).
  destruct (process_all E (rglob (fs st)) st); simpl in *; auto.
Qed.

(** *** The dictionary through a run *)

Lemma download_file_cache_other E url st u :
  u <> url ->
  url_to_local_path (snd (download_file E url st)) !! u
  = url_to_local_path st !! u.
Proof.
  intros Hne. download_cases E url st; simpl; try reflexivity;
    apply lookup_insert_ne; congruence.
Qed.

Lemma download_file_sound E url st :
  cache_sound E st -> cache_sound E (snd (download_file E url st)).
Proof.
  intros Hs u p Hu.
  pose proof (shape_kept_subseteq _ _ (download_file_fs E url st)) as Hshape.
  destruct (decide (u = url)) as [->|Hne].
  - destruct (url_to_local_path st !! url) as [p0|] eqn:Hc.
    + rewrite (download_file_cache_stable E url st url p0 Hc) in Hu.
      injection Hu as <-. destruct (Hs url p0 Hc) as [Hp Hex].
      split; [exact Hp|]. eapply shape_kept_exists; eassumption.
    + destruct (download_file E url st) as [[p'|] st'] eqn:Hd; simpl in *.
      * rewrite (download_file_success E url st p' st' Hd) in Hu.
        injection Hu as <-.
        destruct (download_file_stored E url st p' st' Hc Hd) as (Hp & Hex & _).
        split; assumption.
      * destruct (download_file_failure E url st st' Hd) as (Hsame & _).
        rewrite Hsame in Hu. congruence.
  - rewrite download_file_cache_other in Hu by exact Hne.
    destruct (Hs u p Hu) as [Hp Hex].
    split; [exact Hp|]. eapply shape_kept_exists; eassumption.
Qed.

Lemma rewrite_match_sound E fp c st m :
  cache_sound E st -> cache_sound E (snd (rewrite_match E fp (c, st) m)).
Proof.
  intros Hs. unfold rewrite_match, rewrite_url.
  destruct (contains search_index (unescape E m)); [exact Hs|].
  pose proof (download_file_sound E (unescape E m) st Hs) as Hd.
  destruct (download_file E (unescape E m) st) as [[lp|] st1]; simpl in *;
    [|exact Hd].
  destruct (relpath E _ _); exact Hd.
Qed.

Lemma rewrite_all_sound E fp ms c st :
  cache_sound E st ->
  cache_sound E (snd (fold_left (rewrite_match E fp) ms (c, st))).
Proof.
  revert c st. induction ms as [|m ms IH]; intros c st Hs; simpl; [exact Hs|].
  pose proof (rewrite_match_sound E fp c st m Hs) as H1.
  destruct (rewrite_match E fp (c, st) m) as [c1 st1]. apply IH, H1.
Qed.

Lemma rewrite_loop_sound E fp ms c st :
  cache_sound E st ->
  cache_sound E (snd (snd (rewrite_loop E fp ms (c, st)))).
Proof.
  destruct (rewrite_loop_prefix E fp ms (c, st)) as (done & rest & _ & -> & _).
  apply rewrite_all_sound.
Qed.

Lemma process_file_dictionary E fp st :
  (cache_sound E st -> cache_sound E (state_of (process_file E fp st)))
  /\ forall u p, url_to_local_path st !! u = Some p ->
                 url_to_local_path (state_of (process_file E fp st)) !! u = Some p.
Proof.
  unfold process_file. simpl.
  destruct (read_text (fs st) fp) as [content| |e]; simpl; [|auto|auto].
  pose proof (rewrite_loop_sound E fp
                (sorted_by_len_desc (set_iter E (findall content))) content
                (log (Found (length (set_iter E (findall content))) fp)
                   (log (Processing fp) st))) as Hsound.
  pose proof (rewrite_loop_evolves E fp
                (sorted_by_len_desc (set_iter E (findall content))) content
                (log (Found (length (set_iter E (findall content))) fp)
                   (log (Processing fp) st))) as (_ & Hmono & _).
  destruct (rewrite_loop _ _ _ _) as [r [nc st2]]. simpl in Hsound, Hmono.
  destruct r as [e|]; simpl; [auto|].
  destruct (bool_decide (nc = content)); simpl; [auto|].
  destruct (write_text (fs st2) fp nc) as [e|f'] eqn:Hwr; simpl; [auto|].
  split; [|exact Hmono].
  intros Hs u p Hu. destruct (Hsound Hs u p Hu) as [Hp Hex].
  split; [exact Hp|]. simpl.
  destruct (write_text_shape _ _ _ _ Hwr) as (Hshape & _).
  eapply shape_kept_exists; eassumption.
Qed.

Lemma process_all_dictionary E files st :
  (cache_sound E st -> cache_sound E (state_of (process_all E files st)))
  /\ forall u p, url_to_local_path st !! u = Some p ->
                 url_to_local_path (state_of (process_all E files st)) !! u = Some p.
Proof.
  revert st. induction files as [|f files IH]; intros st; simpl; [auto|].
  destruct (process_file_dictionary E f st) as (Hs1 & Hm1).
  destruct (process_file E f st) as [st1|e st1]; simpl in *; [|auto].
  destruct (IH st1) as (Hs2 & Hm2). auto.
Qed.

(** X6: at the end of a run every entry of [url_to_local_path] maps its URL
    to the storage path computed for that URL, and something exists at that
    path in the tree the run leaves. *)
Theorem dictionary_sound_after_run E f :
  cache_sound E (state_of (main E (fresh f))).
Proof.
  unfold main.
  destruct (process_all_dictionary E (rglob (fs (fresh f))) (fresh f)) as (Hs & _).
  assert (H0 : cache_sound E (fresh f)).
  { intros u p Hu. simpl in Hu. rewrite lookup_empty in Hu. discriminate. }
  specialize (Hs H0).
  destruct (process_all E (rglob (fs (fresh f))) (fresh f)); exact Hs.
Qed.

(** X7: an entry of [url_to_local_path] is never changed or removed, by any
    document of a run. *)
Theorem dictionary_stable_in_run E st u p :
  url_to_local_path st !! u = Some p ->
  url_to_local_path (state_of (main E st)) !! u = Some p.
Proof.
  intros H. unfold main.
  destruct (process_all_dictionary E (rglob (fs st)) st) as (_ & Hm).
  specialize (Hm u p H).
  destruct (process_all E (rglob (fs st)) st); exact Hm.
Qed.

(** *** Each document once *)

Lemma processed_app a b : processed (a ++ b) = processed a ++ processed b.
Proof. unfold processed. apply flat_map_app. Qed.

Lemma processed_other E fp st other :
  Forall (fun e =>
            report_event fp e
            \/ exists content,
                 read_text (fs st) fp = ReadOk content
                 /\ loop_event E
                      (sorted_by_len_desc (set_iter E (findall content))) e)
    other ->
  processed other = [].
Proof.
  induction 1 as [|e other He _ IH]; [reflexivity|].
  change (processed (e :: other))
    with (match e with Processing f => [f] | _ => [] end ++ processed other).
  rewrite IH, app_nil_r.
  destruct e; try reflexivity. exfalso.
  destruct He as [Hr|(content & _ & m & _ & [Ha | Herr] & _)];
    [exact Hr|exact Ha|discriminate].
Qed.

Lemma process_file_processed E fp st :
  processed (console (state_of (process_file E fp st)))
  = fp :: processed (console st).
Proof.
  destruct (process_file_events E fp st) as (other & -> & Hall).
  rewrite processed_app, (processed_other E fp st other Hall). reflexivity.
Qed.

Lemma process_all_processed E files st :
  exists n,
    processed (console (state_of (process_all E files st)))
    = rev (take n files) ++ processed (console st)
    /\ (forall st', process_all E files st = Returned st' -> n = length files).
Proof.
  revert st. induction files as [|f files IH]; intros st; simpl.
  - exists 0. split; [reflexivity|auto].
  - pose proof (process_file_processed E f st) as Hp.
    destruct (process_file E f st) as [st1|e st1]; simpl in *.
    + destruct (IH st1) as (n & Hn & Hret). exists (S n). split.
      * rewrite Hn, Hp. simpl. rewrite <- app_assoc. reflexivity.
      * intros st' H. rewrite (Hret st' H). reflexivity.
    + exists 1. split; [rewrite Hp; destruct files; reflexivity|discriminate].
Qed.

Lemma rglob_NoDup f : NoDup (rglob f).
Proof.
  unfold rglob. apply NoDup_ListNoDup, List.NoDup_filter, NoDup_ListNoDup.
  apply NoDup_fst_map_to_list.
Qed.

(** X8: the scan yields no document twice, and a run processes the
    documents in the order of the scan, each one once: the documents the
    console shows are the first [n] of the scan, all of them when [main]
    returns. *)
Theorem each_document_once E st :
  NoDup (rglob (fs st))
  /\ exists n,
       processed (console (state_of (main E st)))
       = rev (take n (rglob (fs st))) ++ processed (console st)
       /\ (forall st', main E st = Returned st' -> n = length (rglob (fs st))).
Proof.
  split; [apply rglob_NoDup|].
  unfold main.
  destruct (process_all_processed E (rglob (fs st)) st) as (n & Hn & Hret).
  exists n. destruct (process_all E (rglob (fs st)) st) as [st1|e st1] eqn:Hall.
  - split; [exact Hn|]. intros st' _. apply (Hret st1). reflexivity.
  - split; [exact Hn|]. discriminate.
Qed.

(** *** Where an asset is stored *)

(** X9: when [download_file] computes and returns a path for a URL that
    was not in the dictionary, something exists at that path when it
    returns and the URL is in the dictionary from then on; unless the file
    name is a single dot, the path is one of the three asset directories
    followed by the file name. *)
Theorem stored_path_exists E url st p st' :
  url_to_local_path st !! url = None ->
  download_file E url st = (Some p, st') ->
  path_exists (fs st') p = true
  /\ url_to_local_path st' !! url = Some p
  /\ (local_filename E url <> dot ->
      exists d, d ∈ [IMAGES_DIR; FONTS_DIR; OTHERS_DIR]
                /\ p = d ++ [local_filename E url]).
Proof.
  intros Hmiss Hd.
  destruct (download_file_stored E url st p st' Hmiss Hd) as (_ & Hex & Hp).
  split; [exact Hex|]. split; [eapply download_file_success; exact Hd|].
  intros Hdot. exists (get_target_dir (get_extension E url)).
  split; [|apply Hp, Hdot].
  destruct (get_target_dir_cases (get_extension E url)) as [-> | [-> | ->]].
  - left.
  - right. left.
  - right. right. left.
Qed.

Lemma basename_no_slash p : has_char 47 (basename p) = false.
Proof.
  unfold basename. induction p as [|x p IH]; [reflexivity|].
  cbn [after_last_index].
  destruct (after_last_index 47 p) as [|k].
  - change (drop 0 p) with p in IH.
    destruct (N.eqb_spec x 47) as [->|Hx].
    + change (drop 1 (47%N :: p)) with p. exact IH.
    + change (drop 0 (x :: p)) with (x :: p).
      change (has_char 47 (x :: p)) with ((47 =? x)%N || has_char 47 p).
      rewrite IH, orb_false_r. apply N.eqb_neq. congruence.
  - change (drop (S (S k)) (x :: p)) with (drop (S k) p). exact IH.
Qed.

Lemma has_char_drop c n s : has_char c s = false -> has_char c (drop n s) = false.
Proof.
  revert n. induction s as [|x s IH]; intros n H.
  - destruct n; reflexivity.
  - destruct n; [exact H|].
    change (drop (S n) (x :: s)) with (drop n s).
    change (has_char c (x :: s)) with ((c =? x)%N || has_char c s) in H.
    apply orb_false_iff in H. apply IH, H.
Qed.

Lemma splitext_ext_no_slash p : has_char 47 (splitext_ext p) = false.
Proof.
  unfold splitext_ext. destruct (after_last_index 46 (basename p)); [reflexivity|].
  destruct (forallb _ _); [reflexivity|].
  apply has_char_drop, basename_no_slash.
Qed.

Lemma ascii_lower_no_slash s :
  has_char 47 s = false -> has_char 47 (List.map ascii_lower s) = false.
Proof.
  induction s as [|x s IH]; intros H; [reflexivity|].
  change (has_char 47 (x :: s)) with ((47 =? x)%N || has_char 47 s) in H.
  apply orb_false_iff in H. destruct H as [Hx Hs].
  change (has_char 47 (List.map ascii_lower (x :: s)))
    with ((47 =? ascii_lower x)%N || has_char 47 (List.map ascii_lower s)).
  rewrite (IH Hs), orb_false_r.
  unfold ascii_lower, is_ascii_upper.
  apply N.eqb_neq in Hx.
  destruct ((65 <=? x)%N && (x <=? 90)%N) eqn:Hup.
  - apply andb_true_iff in Hup. destruct Hup as [H1 H2].
    apply N.leb_le in H1. apply N.leb_le in H2.
    apply N.eqb_neq. lia.
  - apply N.eqb_neq. exact Hx.
Qed.

Lemma lower_no_slash E s :
  (forall t, has_char 47 t = false -> has_char 47 (str_lower E t) = false) ->
  has_char 47 s = false -> has_char 47 (lower E s) = false.
Proof.
  intros HE H. unfold lower.
  destruct (forallb _ s); [apply ascii_lower_no_slash, H|apply HE, H].
Qed.

Lemma forall_no_slash (P : N -> bool) s :
  P 47%N = false -> Forall (fun c => P c = true) s -> has_char 47 s = false.
Proof.
  intros HP. induction 1 as [|x s Hx _ IH]; [reflexivity|].
  change (has_char 47 (x :: s)) with ((47 =? x)%N || has_char 47 s).
  rewrite IH, orb_false_r. apply N.eqb_neq. intros <-. congruence.
Qed.

Lemma local_filename_no_slash E url :
  (forall t, has_char 47 t = false -> has_char 47 (str_lower E t) = false) ->
  has_char 47 (local_filename E url) = false.
Proof.
  intros HE. unfold local_filename.
  destruct (bool_decide _ || _).
  - rewrite has_char_app. apply orb_false_iff. split.
    + apply (forall_no_slash lower_hex); [reflexivity|].
      unfold url_hash. apply Forall_take, hexdigest_lower_hex.
    + apply lower_no_slash; [exact HE|apply splitext_ext_no_slash].
  - apply (forall_no_slash safe_char); [reflexivity|].
    rewrite remove_weird_filter. apply filter_safe.
Qed.

Lemma resolve_snoc d c :
  c <> dot -> c <> dotdot -> resolve (d ++ [c]) = resolve d ++ [c].
Proof.
  intros H1 H2. unfold resolve. rewrite fold_left_app. simpl.
  rewrite bool_decide_false by exact H2.
  rewrite bool_decide_false by exact H1. reflexivity.
Qed.

Lemma get_target_dir_resolved ext :
  resolve (get_target_dir ext) = get_target_dir ext.
Proof.
  destruct (get_target_dir_cases ext) as [-> | [-> | ->]];
    vm_compute; reflexivity.
Qed.

(** X10: the name of the local file is never empty and, as long as
    lower-casing a text without a slash does not produce one, holds no
    slash.  Unless it is a single dot or two dots, the storage path is one
    of the three asset directories followed by that one name: the path is
    its own resolved form and its parent is the asset directory, so that
    the asset is stored directly in that directory. *)
Theorem local_filename_component E url :
  (forall t, has_char 47 t = false -> has_char 47 (str_lower E t) = false) ->
  local_filename E url <> []
  /\ has_char 47 (local_filename E url) = false
  /\ (local_filename E url <> dot -> local_filename E url <> dotdot ->
      get_target_dir (get_extension E url) ∈ [IMAGES_DIR; FONTS_DIR; OTHERS_DIR]
      /\ local_path_of E url
         = get_target_dir (get_extension E url) ++ [local_filename E url]
      /\ resolve (local_path_of E url) = local_path_of E url
      /\ parent (resolve (local_path_of E url))
         = get_target_dir (get_extension E url)).
Proof.
  intros HE. split; [apply local_filename_nonempty|].
  split; [apply local_filename_no_slash, HE|].
  intros Hdot Hdd.
  assert (Hp : local_path_of E url
               = get_target_dir (get_extension E url) ++ [local_filename E url]).
  { unfold local_path_of, join_path.
    rewrite bool_decide_false by exact Hdot.
    rewrite bool_decide_false by apply local_filename_nonempty.
    reflexivity. }
  assert (Hr : resolve (local_path_of E url) = local_path_of E url).
  { rewrite Hp, resolve_snoc, get_target_dir_resolved by assumption.
    reflexivity. }
  split.
  { destruct (get_target_dir_cases (get_extension E url)) as [-> | [-> | ->]].
    - left.
    - right. left.
    - right. right. left. }
  split; [exact Hp|]. split; [exact Hr|].
  rewrite Hr, Hp. unfold parent. apply removelast_last.
Qed.

(** *** A replacement that finds nothing *)





(** *** The directories of the assets *)

Lemma node_at_snoc f cur (c : str) : node_at f (cur ++ [c]) = f !! (cur ++ [c]).
Proof. destruct cur; reflexivity. Qed.

Lemma mkdir_from_made f cur p f' :
  mkdir_from f cur p = inr f' ->
  f ⊆ f'
  /\ forall i, 0 < i <= length p ->
               exists w, f' !! (cur ++ take i p) = Some (Dir w).
Proof.
  revert f cur. induction p as [|c p IH]; intros f cur H.
  - injection H as <-. split; [reflexivity|]. simpl. intros i Hi. lia.
  - cbn [mkdir_from] in H. rewrite node_at_snoc in H.
    assert (Hstep : forall f1,
              f ⊆ f1 -> (exists w, f1 !! (cur ++ [c]) = Some (Dir w)) ->
              mkdir_from f1 (cur ++ [c]) p = inr f' ->
              f ⊆ f'
              /\ forall i, 0 < i <= length (c :: p) ->
                           exists w, f' !! (cur ++ take i (c :: p)) = Some (Dir w)).
    { intros f1 Hsub [w Hw] Hrec. destruct (IH f1 (cur ++ [c]) Hrec) as (Hsub' & Hd).
      split; [etrans; eassumption|].
      intros i Hi. destruct i as [|[|j]]; [lia| |].
      - exists w. eapply lookup_weaken; eassumption.
      - change (take (S (S j)) (c :: p)) with ([c] ++ take (S j) p).
        rewrite (app_assoc cur [c] (take (S j) p)).
        apply Hd. simpl in Hi. lia. }
    destruct (f !! (cur ++ [c])) as [[d w|w|d]|] eqn:Hq;
      [discriminate| |discriminate|].
    + apply (Hstep f); [reflexivity|eauto|exact H].
    + destruct (node_at f cur) as [[? ?|[|]|?]|]; try discriminate.
      apply (Hstep (<[cur ++ [c] := Dir true]> f)); [|eexists; apply lookup_insert_eq|exact H].
      apply insert_subseteq, Hq.
Qed.

Lemma mkdir_from_present f cur p :
  (forall i, 0 < i <= length p ->
             exists w, f !! (cur ++ take i p) = Some (Dir w)) ->
  mkdir_from f cur p = inr f.
Proof.
  revert cur. induction p as [|c p IH]; intros cur H; [reflexivity|].
  cbn [mkdir_from]. rewrite node_at_snoc.
  destruct (H 1) as [w Hw]; [simpl; lia|].
  change (take 1 (c :: p)) with [c] in Hw. rewrite Hw.
  apply IH. intros i Hi.
  rewrite <- (app_assoc cur [c] (take i p)).
  apply (H (S i)). simpl. lia.
Qed.

Lemma walk_plain f p :
  Forall (fun c => c <> dot /\ c <> dotdot) p ->
  forall cur,
    (forall i, i < length p ->
               exists w, node_at f (cur ++ take i p) = Some (Dir w)) ->
    walk f cur p = Some (cur ++ p).
Proof.
  induction 1 as [|c p [Hdot Hdd] _ IH]; intros cur H.
  - rewrite app_nil_r. reflexivity.
  - cbn [walk]. destruct (H 0) as [w Hw]; [simpl; lia|].
    change (take 0 (c :: p)) with (@nil str) in Hw.
    rewrite app_nil_r in Hw. rewrite Hw.
    rewrite !bool_decide_false by assumption.
    rewrite (IH (cur ++ [c])); [rewrite <- app_assoc; reflexivity|].
    intros i Hi. rewrite <- (app_assoc cur [c] (take i p)).
    apply (H (S i)). simpl. lia.
Qed.

Lemma asset_dir_exists f (a b : str) :
  a <> dot -> a <> dotdot -> b <> dot -> b <> dotdot ->
  (exists w, f !! [a] = Some (Dir w)) -> (exists w, f !! [a; b] = Some (Dir w)) ->
  path_exists f [a; b] = true.
Proof.
  intros Ha Ha' Hb Hb' [w Hw] [w' Hw']. unfold path_exists.
  rewrite (walk_plain f [a; b]).
  - simpl. rewrite Hw'. reflexivity.
  - repeat constructor; assumption.
  - intros i Hi. destruct i as [|[|i]]; simpl in *; [eauto|eauto|lia].
Qed.

(** X12: when the three directories can be made as the module loads,
    every entry that was in the tree is kept as it was, [assets] and the
    three directories under it are directories afterwards and are found by
    their paths, and making them once more changes nothing. *)
Theorem create_directories_made f f' :
  create_directories f = inr f' ->
  f ⊆ f'
  /\ Forall (fun d => exists w, f' !! d = Some (Dir w))
       [ASSETS_DIR; IMAGES_DIR; FONTS_DIR; OTHERS_DIR]
  /\ Forall (fun d => path_exists f' d = true)
       [IMAGES_DIR; FONTS_DIR; OTHERS_DIR]
  /\ create_directories f' = inr f'.
Proof.
  unfold create_directories. intros H.
  destruct (mkdir_from f [] IMAGES_DIR) as [e|f1] eqn:H1; [discriminate|].
  destruct (mkdir_from f1 [] FONTS_DIR) as [e|f2] eqn:H2; [discriminate|].
  destruct (mkdir_from_made _ _ _ _ H1) as (S1 & D1).
  destruct (mkdir_from_made _ _ _ _ H2) as (S2 & D2).
  destruct (mkdir_from_made _ _ _ _ H) as (S3 & D3).
  assert (Ha : exists w, f' !! ASSETS_DIR = Some (Dir w)).
  { destruct (D3 1) as [w Hw]; [simpl; lia|]. eauto. }
  assert (Hi : exists w, f' !! IMAGES_DIR = Some (Dir w)).
  { destruct (D1 2) as [w Hw]; [simpl; lia|]. exists w.
    eapply lookup_weaken; [|exact S3]. eapply lookup_weaken; [exact Hw|exact S2]. }
  assert (Hf : exists w, f' !! FONTS_DIR = Some (Dir w)).
  { destruct (D2 2) as [w Hw]; [simpl; lia|]. exists w.
    eapply lookup_weaken; [exact Hw|exact S3]. }
  assert (Ho : exists w, f' !! OTHERS_DIR = Some (Dir w)).
  { destruct (D3 2) as [w Hw]; [simpl; lia|]. eauto. }
  split; [etrans; [exact S1|]; etrans; eassumption|].
  split; [repeat constructor; assumption|].
  split.
  - repeat constructor; apply asset_dir_exists; try assumption;
      intros Heq; vm_compute in Heq; discriminate Heq.
  - assert (Hmk : forall d, d ∈ [IMAGES_DIR; FONTS_DIR; OTHERS_DIR] ->
                    (exists w, f' !! d = Some (Dir w)) ->
                    mkdir_from f' [] d = inr f').
    { intros d Hd Hdir. apply mkdir_from_present. intros i Hn.
      repeat (apply elem_of_cons in Hd; destruct Hd as [->|Hd]);
        try (inversion Hd; fail);
        destruct i as [|[|[|i]]]; simpl in Hn; try lia; assumption. }
    rewrite (Hmk IMAGES_DIR), (Hmk FONTS_DIR), (Hmk OTHERS_DIR); auto;
      repeat constructor.
Qed.

(** *** The path of a CDN URL *)

(** For a URL of the CDN the path is what follows the host, without tabs
    and line ends, up to the first [#], then up to the first [?], and
    without the parameters of its last segment. *)
Lemma urlparse_path_cdn rest :
  urlparse_path (cdn_prefix ++ rest)
  = (let u := before_char 63
                (before_char 35
                   (47%N :: List.filter
                              (fun c => negb ((c =? 9) || (c =? 13) || (c =? 10))%N)
                              rest)) in
     if has_char 59 u then splitparams u else u).
Proof. vm_compute. reflexivity. Qed.

Lemma has_char_false_Forall x s :
  has_char x s = false <-> Forall (fun c => negb (c =? x)%N = true) s.
Proof.
  induction s as [|c s IH].
  - split; [constructor|reflexivity].
  - change (has_char x (c :: s)) with ((x =? c)%N || has_char x s).
    rewrite orb_false_iff, IH, N.eqb_sym. split.
    + intros [Hc Hs]. constructor; [rewrite Hc; reflexivity|exact Hs].
    + intros H. inversion H as [|? ? Hc Hs]; subst. split; [|exact Hs].
      apply negb_true_iff, Hc.
Qed.

Lemma takewhile_app_pass f a b :
  Forall (fun c => f c = true) a -> takewhile f (a ++ b) = a ++ takewhile f b.
Proof.
  induction 1 as [|c a Hc _ IH]; [reflexivity|].
  rewrite <- app_comm_cons. cbn [takewhile]. rewrite Hc, IH. reflexivity.
Qed.

Lemma before_char_stop x a b :
  has_char x a = false -> before_char x (a ++ x :: b) = a.
Proof.
  intros H. apply has_char_false_Forall in H. unfold before_char.
  rewrite takewhile_app_pass by exact H.
  cbn [takewhile]. rewrite N.eqb_refl. simpl. apply app_nil_r.
Qed.

Lemma before_char_none x a : has_char x a = false -> before_char x a = a.
Proof.
  intros H. apply has_char_false_Forall in H. unfold before_char.
  rewrite <- (app_nil_r a) at 1. rewrite takewhile_app_pass by exact H.
  apply app_nil_r.
Qed.

Lemma has_char_filter x f s :
  has_char x s = false -> has_char x (List.filter f s) = false.
Proof.
  rewrite !has_char_false_Forall. intros H.
  apply Forall_forall. intros c Hc. rewrite Forall_forall in H.
  apply list_elem_of_In, filter_In in Hc. apply H, list_elem_of_In, Hc.
Qed.

Lemma urlparse_path_query rest sep q :
  has_char 35 rest = false -> has_char 63 rest = false ->
  sep = 63%N \/ sep = 35%N ->
  urlparse_path (cdn_prefix ++ rest ++ sep :: q) = urlparse_path (cdn_prefix ++ rest).
Proof.
  intros H35 H63 Hsep. rewrite !urlparse_path_cdn.
  set (nu := fun c => negb ((c =? 9) || (c =? 13) || (c =? 10))%N).
  assert (H35' : has_char 35 (47%N :: List.filter nu rest) = false).
  { change (has_char 35 (47%N :: List.filter nu rest))
      with (false || has_char 35 (List.filter nu rest)).
    apply has_char_filter, H35. }
  assert (H63' : has_char 63 (47%N :: List.filter nu rest) = false).
  { change (has_char 63 (47%N :: List.filter nu rest))
      with (false || has_char 63 (List.filter nu rest)).
    apply has_char_filter, H63. }
  assert (Heq : before_char 63
                  (before_char 35 (47%N :: List.filter nu (rest ++ sep :: q)))
                = before_char 63 (before_char 35 (47%N :: List.filter nu rest))).
  { rewrite List.filter_app.
    rewrite (before_char_none 35 (47%N :: List.filter nu rest) H35').
    rewrite (before_char_none 63 (47%N :: List.filter nu rest) H63').
    destruct Hsep as [-> | ->].
    - change (List.filter nu (63%N :: q)) with (63%N :: List.filter nu q).
      rewrite app_comm_cons. unfold before_char at 2.
      rewrite takewhile_app_pass by (apply has_char_false_Forall, H35').
      cbn [takewhile]. change (negb (63 =? 35)%N) with true. cbv iota.
      rewrite <- app_comm_cons.
      change (47%N :: List.filter nu rest
                ++ 63%N :: takewhile (fun x => negb (x =? 35)%N) (List.filter nu q))
        with ((47%N :: List.filter nu rest)
                ++ 63%N :: takewhile (fun x => negb (x =? 35)%N) (List.filter nu q)).
      apply before_char_stop, H63'.
    - change (List.filter nu (35%N :: q)) with (35%N :: List.filter nu q).
      rewrite app_comm_cons, (before_char_stop 35 _ _ H35').
      apply before_char_none, H63'. }
  cbv zeta. rewrite Heq. reflexivity.
Qed.

(** X13: what follows the first [?] or [#] of a CDN URL plays no part in
    how the asset is stored: the extension, and with it the directory, and
    the sanitized basename are those of the URL without it; so is the whole
    storage path when the sanitized basename is kept as the file name (it
    is not empty and has 50 characters at most). *)
Theorem query_and_fragment_ignored E rest sep q :
  has_char 35 rest = false -> has_char 63 rest = false ->
  sep = 63%N \/ sep = 35%N ->
  get_extension E (cdn_prefix ++ rest ++ sep :: q)
  = get_extension E (cdn_prefix ++ rest)
  /\ remove_weird (basename (urlparse_path (cdn_prefix ++ rest ++ sep :: q)))
     = remove_weird (basename (urlparse_path (cdn_prefix ++ rest)))
  /\ (remove_weird (basename (urlparse_path (cdn_prefix ++ rest))) <> [] ->
      length (remove_weird (basename (urlparse_path (cdn_prefix ++ rest)))) <= 50 ->
      local_path_of E (cdn_prefix ++ rest ++ sep :: q)
      = local_path_of E (cdn_prefix ++ rest)).
Proof.
  intros H35 H63 Hsep.
  pose proof (urlparse_path_query rest sep q H35 H63 Hsep) as Hp.
  unfold get_extension. rewrite Hp.
  split; [reflexivity|]. split; [reflexivity|].
  intros Hne Hlen.
  unfold local_path_of, local_filename, get_extension. rewrite Hp.
  rewrite bool_decide_false by exact Hne.
  replace (50 <? _)%nat with false; [reflexivity|].
  symmetry. apply Nat.ltb_ge. exact Hlen.
Qed.

(** *** Text written and read back *)

Ltac bits :=
  rewrite ?N.shiftr_div_pow2, ?N.shiftl_mul_pow2;
  change 63%N with (N.ones 6); change 31%N with (N.ones 5);
  change 15%N with (N.ones 4); change 7%N with (N.ones 3);
  rewrite ?N.land_ones;
  change (2 ^ 3)%N with 8%N; change (2 ^ 4)%N with 16%N;
  change (2 ^ 5)%N with 32%N; change (2 ^ 6)%N with 64%N;
  change (2 ^ 12)%N with 4096%N; change (2 ^ 18)%N with 262144%N.

Ltac to_prop :=
  repeat first
    [ rewrite orb_true_iff | rewrite andb_true_iff | rewrite orb_false_iff
    | rewrite andb_false_iff | rewrite N.eqb_eq | rewrite N.eqb_neq
    | rewrite N.leb_le | rewrite N.leb_gt | rewrite N.ltb_lt | rewrite N.ltb_ge ].

Ltac div_mod_lia := zify; Z.to_euclidean_division_equations; lia.

(** Decoding reads back the code point that was encoded and goes on with
    the bytes that follow. *)
Lemma utf8_decode_encode_char c rest :
  scalar c = true ->
  utf8_decode (utf8_encode_char c ++ rest) = cons c <$> utf8_decode rest.
Proof.
  intros Hs. unfold scalar in Hs. revert Hs. to_prop. intros Hs.
  unfold utf8_encode_char.
  destruct (N.ltb_spec c 0x80) as [H1|H1].
  { cbn [app utf8_decode]. rewrite (proj2 (N.ltb_lt _ _) H1). reflexivity. }
  destruct (N.ltb_spec c 0x800) as [H2|H2].
  { cbn [app utf8_decode].
    replace (_ <? 128)%N with false by (symmetry; to_prop; bits; div_mod_lia).
    replace (_ && _) with true by (symmetry; to_prop; bits; div_mod_lia).
    replace (is_cont _) with true
      by (symmetry; unfold is_cont; to_prop; bits; div_mod_lia).
    f_equal. f_equal. bits. div_mod_lia. }
  destruct (N.ltb_spec c 0x10000) as [H3|H3].
  { cbn [app utf8_decode].
    replace (_ <? 128)%N with false by (symmetry; to_prop; bits; div_mod_lia).
    replace ((194 <=? _)%N && _) with false
      by (symmetry; to_prop; bits; div_mod_lia).
    replace (lead3_ok _ _) with true
      by (symmetry; unfold lead3_ok, is_cont; to_prop; bits; div_mod_lia).
    replace (is_cont _) with true
      by (symmetry; unfold is_cont; to_prop; bits; div_mod_lia).
    f_equal. f_equal. bits. div_mod_lia. }
  cbn [app utf8_decode].
  replace (_ <? 128)%N with false by (symmetry; to_prop; bits; div_mod_lia).
  replace ((194 <=? _)%N && _) with false
    by (symmetry; to_prop; bits; div_mod_lia).
  replace (lead3_ok _ _) with false
    by (symmetry; unfold lead3_ok, is_cont; to_prop; bits; div_mod_lia).
  replace (lead4_ok _ _ && _ && _) with true
    by (symmetry; unfold lead4_ok, is_cont; to_prop; bits; div_mod_lia).
  f_equal. f_equal. bits. div_mod_lia.
Qed.

Lemma utf8_decode_encode s :
  Forall (fun c => scalar c = true) s -> utf8_decode (utf8_encode s) = Some s.
Proof.
  induction 1 as [|c s Hc _ IH]; [reflexivity|].
  unfold utf8_encode in *. cbn [flat_map].
  rewrite (utf8_decode_encode_char c _ Hc), IH. reflexivity.
Qed.

Lemma universal_newlines_plain s :
  has_char 13 s = false -> universal_newlines s = s.
Proof.
  induction s as [|c s IH]; intros H; [reflexivity|].
  change (has_char 13 (c :: s)) with ((13 =? c)%N || has_char 13 s) in H.
  apply orb_false_iff in H. destruct H as [Hc Hs].
  cbn [universal_newlines]. rewrite N.eqb_sym, Hc, (IH Hs). reflexivity.
Qed.

Lemma write_text_result f p s f' :
  write_text f p s = inr f' ->
  exists q, walk f [] p = Some q /\ q <> []
            /\ f' !! q = Some (File (utf8_encode s) true).
Proof.
  unfold write_text, open_w.
  destruct (walk f [] p) as [q|]; [|discriminate].
  destruct q as [|c q]; [simpl; discriminate|].
  simpl. destruct (f !! (c :: q)) as [[d [|]|w|d]|]; try discriminate.
  - intros H. injection H as <-. exists (c :: q).
    split; [reflexivity|]. split; [discriminate|apply lookup_insert_eq].
  - match goal with
    | |- context [node_at f ?x] => destruct (node_at f x) as [[? ?|[|]|?]|]
    end; try discriminate.
    intros H. injection H as <-. exists (c :: q).
    split; [reflexivity|]. split; [discriminate|apply lookup_insert_eq].
Qed.

(** X14: a text of Unicode scalar values that has been written to a
    document is what reading the document gives afterwards, with every
    carriage return, alone or before a line feed, turned into a line feed;
    a text without carriage returns is read back as it was written. *)
Theorem written_text_reads_back f p s f' :
  Forall (fun c => scalar c = true) s ->
  write_text f p s = inr f' ->
  read_text f' p = ReadOk (universal_newlines s)
  /\ (has_char 13 s = false -> read_text f' p = ReadOk s).
Proof.
  intros Hs Hw.
  assert (Hr : read_text f' p = ReadOk (universal_newlines s)).
  { destruct (write_text_result f p s f' Hw) as (q & Hq & Hne & Hf').
    destruct (write_text_shape f p s f' Hw) as (Hshape & _).
    unfold read_text.
    rewrite (keeps_walk f f' p (shape_kept_keeps f f' Hshape) [] q Hq).
    destruct q as [|c q]; [congruence|]. simpl. rewrite Hf'.
    rewrite (utf8_decode_encode s Hs). reflexivity. }
  split; [exact Hr|].
  intros H13. rewrite Hr, (universal_newlines_plain s H13). reflexivity.
Qed.

(** *** A match written with an entity *)

Lemma charref_sub_unescape E b : charref_sub E 0 b = unescape E b.
Proof.
  unfold unescape. destruct (has_char 38 b) eqn:H; [reflexivity|].
  rewrite <- (app_nil_r b) at 1. rewrite (charref_sub_plain E b [] H).
  apply app_nil_r.
Qed.

(** X15: with the entry for [amp;] in the entity table, [html.unescape]
    turns the first [&amp;] of a string into a plain ampersand, whatever
    follows it, and goes on after it: a reference written with [&amp;] is
    downloaded and looked for in the text under the URL with [&]. *)
Theorem unescape_ampersand_entity E a b :
  html5 E (lit "amp;") = Some (lit "&") ->
  has_char 38 a = false ->
  unescape E (a ++ lit "&amp;" ++ b) = a ++ lit "&" ++ unescape E b.
Proof.
  intros Hamp Ha. unfold unescape at 1.
  rewrite has_char_app. replace (has_char 38 (lit "&amp;" ++ b)) with true
    by (vm_compute; reflexivity).
  rewrite orb_true_r, (charref_sub_plain E a _ Ha). f_equal.
  change (lit "&amp;" ++ b) with (38%N :: lit "amp;" ++ b).
  cbn [charref_sub]. change (38 =? 38)%N with true. cbv iota.
  replace (charref_at (lit "amp;" ++ b)) with (Some (lit "amp;"))
    by (vm_compute; reflexivity).
  replace (replace_charref E (lit "amp;")) with (lit "&").
  - rewrite <- charref_sub_unescape. reflexivity.
  - unfold replace_charref.
    change (lit "amp;") with (97%N :: lit "mp;") at 1.
    change (97 =? 35)%N with false. cbv iota.
    change (97%N :: lit "mp;") with (lit "amp;"). rewrite Hamp. reflexivity.
Qed.

(** *** A run that stops *)

Lemma read_text_subseteq f f' p content :
  f ⊆ f' -> read_text f p = ReadOk content -> read_text f' p = ReadOk content.
Proof.
  intros Hsub. unfold read_text.
  destruct (walk f [] p) as [q|] eqn:Hw; [|discriminate].
  rewrite (keeps_walk f f' p (keeps_subseteq f f' Hsub) [] q Hw).
  destruct q as [|c q]; [simpl; discriminate|]. simpl.
  destruct (f !! (c :: q)) as [n|] eqn:Hn; [|discriminate].
  rewrite (lookup_weaken f f' (c :: q) n Hn Hsub). auto.
Qed.

(** X16: when [process_file] raises, the document was not modified: either
    it could not be opened for reading, and nothing was done but printing
    its name, or it was read and the exception came later ([html.unescape]
    on a match, or the document could not be opened for writing), and it
    still reads as before; nothing else that existed was touched either. *)
Theorem abort_leaves_document E fp st e st' :
  process_file E fp st = Raised e st' ->
  fs st ⊆ fs st'
  /\ (read_text (fs st) fp = ReadFails e /\ st' = log (Processing fp) st
      \/ exists content,
           read_text (fs st) fp = ReadOk content
           /\ read_text (fs st') fp = ReadOk content).
Proof.
  unfold process_file. simpl.
  destruct (read_text (fs st) fp) as [content| |e0] eqn:Hread; simpl;
    [|discriminate|].
  - pose proof (rewrite_loop_evolves E fp
                  (sorted_by_len_desc (set_iter E (findall content))) content
                  (log (Found (length (set_iter E (findall content))) fp)
                     (log (Processing fp) st))) as (Hsub & _).
    destruct (rewrite_loop _ _ _ _) as [r [nc st2]]. simpl in Hsub.
    assert (Hdone : forall e1, Raised e1 st2 = Raised e st' ->
              fs st ⊆ fs st'
              /\ (ReadOk content = ReadFails e /\ st' = log (Processing fp) st
                  \/ exists content0,
                       ReadOk content = ReadOk content0
                       /\ read_text (fs st') fp = ReadOk content0)).
    { intros e1 H. injection H as <- <-. split; [exact Hsub|].
      right. exists content. split; [reflexivity|].
      eapply read_text_subseteq; eassumption. }
    destruct r as [e1|]; [apply Hdone|].
    destruct (bool_decide (nc = content)); [discriminate|].
    destruct (write_text (fs st2) fp nc); [|discriminate].
    apply Hdone.
  - intros H. injection H as <- <-. split; [reflexivity|]. left. auto.
Qed.

Lemma process_file_directory E fp st w :
  walk (fs st) [] fp = Some fp -> fs st !! fp = Some (Dir w) ->
  process_file E fp st = Raised IsADirectoryError (log (Processing fp) st).
Proof.
  intros Hw Hd. unfold process_file, read_text. simpl. rewrite Hw.
  destruct fp as [|c fp]; [reflexivity|]. simpl. rewrite Hd. reflexivity.
Qed.

Lemma process_all_directory E files st fp w :
  Forall (fun f => walk (fs st) [] f = Some f) files ->
  fp ∈ files -> fs st !! fp = Some (Dir w) ->
  exists e st', process_all E files st = Raised e st'.
Proof.
  revert st. induction files as [|f files IH]; intros st Hcanon Hin Hd.
  - inversion Hin.
  - inversion Hcanon as [|? ? Hf Hrest]; subst. cbn [process_all].
    destruct (process_file_files E f st) as (Hshape & _).
    destruct (process_file E f st) as [st1|e st1] eqn:Hp; [|eauto].
    simpl in Hshape.
    apply elem_of_cons in Hin. destruct Hin as [->|Hin].
    { rewrite (process_file_directory E f st w Hf Hd) in Hp. discriminate. }
    apply (IH st1); [|exact Hin|].
    + eapply Forall_impl; [exact Hrest|]. intros p Hp'.
      eapply keeps_walk; [apply shape_kept_keeps, Hshape|exact Hp'].
    + specialize (Hshape fp). rewrite Hd in Hshape. exact Hshape.
Qed.

(** X17: the scan also yields directories; a directory whose name ends in
    [.html] stops the run with an exception, at that entry if not before,
    so the run does not report completion. *)
Theorem html_directory_aborts_run E st fp w :
  fp ∈ rglob (fs st) -> fs st !! fp = Some (Dir w) ->
  exists e st', main E st = Raised e st'.
Proof.
  intros Hin Hd. unfold main.
  destruct (process_all_directory E (rglob (fs st)) st fp w
              (rglob_canonical (fs st)) Hin Hd) as (e & st' & ->).
  eauto.
Qed.

(** *** The further properties at work *)

Lemma findall_matches_witness :
  url_short ∈ findall text_index
  /\ contains url_short text_index = true
  /\ startswith cdn_prefix url_short = true
  /\ length cdn_prefix < length url_short
  /\ Forall (fun c => url_char c = true) url_short.
Proof.
  assert (H : url_short ∈ findall text_index).
  { replace (findall text_index) with [url_short; url_index]
      by (vm_compute; reflexivity).
    left. }
  split; [exact H|]. exact (findall_matches text_index url_short H).
Defined.

Lemma fetches_only_cdn_matches_witness :
  env_ok (posix_env net_ok)
  /\ exists new,
       console (state_of (process_file (posix_env net_ok) index_html (fresh tree_one)))
       = new ++ console (fresh tree_one)
       /\ forall u,
            Materialize u ∈ new \/ (exists p, Downloading u p ∈ new) ->
            startswith cdn_prefix u = true
            /\ exists content m,
                 read_text (fs (fresh tree_one)) index_html = ReadOk content
                 /\ m ∈ findall content /\ u = unescape (posix_env net_ok) m.
Proof.
  assert (H : env_ok (posix_env net_ok)) by apply posix_env_ok.
  split; [exact H|].
  exact (fetches_only_cdn_matches (posix_env net_ok) index_html (fresh tree_one) H).
Defined.

Lemma download_file_effect_witness :
  download_file (posix_env net_ok) url_a (fresh empty_tree)
  = (Some path_a, snd (download_file (posix_env net_ok) url_a (fresh empty_tree)))
  /\ (fs (snd (download_file (posix_env net_ok) url_a (fresh empty_tree)))
      = fs (fresh empty_tree)
      \/ exists q,
           fs (fresh empty_tree) !! q = None
           /\ walk (fs (fresh empty_tree)) []
                (local_path_of (posix_env net_ok) url_a) = Some q
           /\ path_exists (fs (fresh empty_tree))
                (local_path_of (posix_env net_ok) url_a) = false
           /\ ((Some path_a = None /\ urlopen (posix_env net_ok) url_a = ReadFail
                /\ fs (snd (download_file (posix_env net_ok) url_a (fresh empty_tree)))
                   = <[q := File [] true]> (fs (fresh empty_tree)))
               \/ exists b,
                    Some path_a = Some (local_path_of (posix_env net_ok) url_a)
                    /\ urlopen (posix_env net_ok) url_a = Body b
                    /\ fs (snd (download_file (posix_env net_ok) url_a
                                  (fresh empty_tree)))
                       = <[q := File b true]> (fs (fresh empty_tree)))).
Proof.
  assert (H : download_file (posix_env net_ok) url_a (fresh empty_tree)
              = (Some path_a,
                 snd (download_file (posix_env net_ok) url_a (fresh empty_tree))))
    by (vm_compute; reflexivity).
  split; [exact H|].
  exact (download_file_effect (posix_env net_ok) url_a (fresh empty_tree) _ _ H).
Defined.

Lemma dictionary_stable_in_run_witness :
  url_to_local_path
    (snd (download_file (posix_env net_ok) url_a (fresh tree_one))) !! url_a
  = Some path_a
  /\ url_to_local_path
       (state_of
          (main (posix_env net_ok)
             (snd (download_file (posix_env net_ok) url_a (fresh tree_one)))))
       !! url_a
     = Some path_a.
Proof.
  assert (H : url_to_local_path
                (snd (download_file (posix_env net_ok) url_a (fresh tree_one)))
                !! url_a = Some path_a)
    by (vm_compute; reflexivity).
  split; [exact H|].
  exact (dictionary_stable_in_run (posix_env net_ok) _ url_a path_a H).
Defined.

Lemma stored_path_exists_witness :
  url_to_local_path (fresh empty_tree) !! url_a = None
  /\ download_file (posix_env net_ok) url_a (fresh empty_tree)
     = (Some path_a, snd (download_file (posix_env net_ok) url_a (fresh empty_tree)))
  /\ path_exists
       (fs (snd (download_file (posix_env net_ok) url_a (fresh empty_tree))))
       path_a = true
  /\ url_to_local_path
       (snd (download_file (posix_env net_ok) url_a (fresh empty_tree)))
       !! url_a = Some path_a
  /\ (local_filename (posix_env net_ok) url_a <> dot ->
      exists d, d ∈ [IMAGES_DIR; FONTS_DIR; OTHERS_DIR]
                /\ path_a = d ++ [local_filename (posix_env net_ok) url_a]).
Proof.
  assert (H1 : url_to_local_path (fresh empty_tree) !! url_a = None)
    by reflexivity.
  assert (H2 : download_file (posix_env net_ok) url_a (fresh empty_tree)
               = (Some path_a,
                  snd (download_file (posix_env net_ok) url_a (fresh empty_tree))))
    by (vm_compute; reflexivity).
  split; [exact H1|]. split; [exact H2|].
  exact (stored_path_exists (posix_env net_ok) url_a (fresh empty_tree) path_a _
           H1 H2).
Defined.

Lemma local_filename_component_witness :
  (forall t, has_char 47 t = false ->
             has_char 47 (str_lower (posix_env net_ok) t) = false)
  /\ local_filename (posix_env net_ok) url_a <> []
  /\ has_char 47 (local_filename (posix_env net_ok) url_a) = false
  /\ (local_filename (posix_env net_ok) url_a <> dot ->
      local_filename (posix_env net_ok) url_a <> dotdot ->
      get_target_dir (get_extension (posix_env net_ok) url_a)
        ∈ [IMAGES_DIR; FONTS_DIR; OTHERS_DIR]
      /\ local_path_of (posix_env net_ok) url_a
         = get_target_dir (get_extension (posix_env net_ok) url_a)
             ++ [local_filename (posix_env net_ok) url_a]
      /\ resolve (local_path_of (posix_env net_ok) url_a)
         = local_path_of (posix_env net_ok) url_a
      /\ parent (resolve (local_path_of (posix_env net_ok) url_a))
         = get_target_dir (get_extension (posix_env net_ok) url_a)).
Proof.
  assert (H : forall t, has_char 47 t = false ->
                        has_char 47 (str_lower (posix_env net_ok) t) = false)
    by exact ascii_lower_no_slash.
  split; [exact H|].
  exact (local_filename_component (posix_env net_ok) url_a H).
Defined.


Lemma create_directories_made_witness :
  create_directories ∅ = inr empty_tree
  /\ ∅ ⊆ empty_tree
  /\ Forall (fun d => exists w, empty_tree !! d = Some (Dir w))
       [ASSETS_DIR; IMAGES_DIR; FONTS_DIR; OTHERS_DIR]
  /\ Forall (fun d => path_exists empty_tree d = true)
       [IMAGES_DIR; FONTS_DIR; OTHERS_DIR]
  /\ create_directories empty_tree = inr empty_tree.
Proof.
  assert (H : create_directories ∅ = inr empty_tree) by (vm_compute; reflexivity).
  split; [exact H|].
  exact (create_directories_made ∅ empty_tree H).
Defined.

Lemma query_and_fragment_ignored_witness :
  has_char 35 (lit "images/a.png") = false
  /\ has_char 63 (lit "images/a.png") = false
  /\ (63%N = 63%N \/ 63%N = 35%N)
  /\ get_extension (posix_env net_ok)
       (cdn_prefix ++ lit "images/a.png" ++ 63%N :: lit "width=512")
     = get_extension (posix_env net_ok) (cdn_prefix ++ lit "images/a.png").
Proof.
  assert (H1 : has_char 35 (lit "images/a.png") = false) by reflexivity.
  assert (H2 : has_char 63 (lit "images/a.png") = false) by reflexivity.
  assert (H3 : 63%N = 63%N \/ 63%N = 35%N) by (left; reflexivity).
  split; [exact H1|]. split; [exact H2|]. split; [exact H3|].
  exact (proj1 (query_and_fragment_ignored (posix_env net_ok)
                  (lit "images/a.png") 63 (lit "width=512") H1 H2 H3)).
Defined.

Lemma written_text_reads_back_witness :
  Forall (fun c => scalar c = true) (lit "<p>ok</p>")
  /\ write_text tree_plain index_html (lit "<p>ok</p>") = inr tree_written
  /\ read_text tree_written index_html = ReadOk (universal_newlines (lit "<p>ok</p>"))
  /\ (has_char 13 (lit "<p>ok</p>") = false ->
      read_text tree_written index_html = ReadOk (lit "<p>ok</p>")).
Proof.
  assert (H1 : Forall (fun c => scalar c = true) (lit "<p>ok</p>"))
    by (repeat constructor).
  assert (H2 : write_text tree_plain index_html (lit "<p>ok</p>") = inr tree_written)
    by (vm_compute; reflexivity).
  split; [exact H1|]. split; [exact H2|].
  exact (written_text_reads_back tree_plain index_html (lit "<p>ok</p>")
           tree_written H1 H2).
Defined.

Lemma unescape_ampersand_entity_witness :
  html5 (posix_env net_ok) (lit "amp;") = Some (lit "&")
  /\ has_char 38 (lit "https://framerusercontent.com/a") = false
  /\ unescape (posix_env net_ok)
       (lit "https://framerusercontent.com/a" ++ lit "&amp;" ++ lit "b.png")
     = lit "https://framerusercontent.com/a" ++ lit "&"
         ++ unescape (posix_env net_ok) (lit "b.png").
Proof.
  assert (H1 : html5 (posix_env net_ok) (lit "amp;") = Some (lit "&"))
    by reflexivity.
  assert (H2 : has_char 38 (lit "https://framerusercontent.com/a") = false)
    by reflexivity.
  split; [exact H1|]. split; [exact H2|].
  exact (unescape_ampersand_entity (posix_env net_ok)
           (lit "https://framerusercontent.com/a") (lit "b.png") H1 H2).
Defined.

Lemma abort_leaves_document_witness :
  process_file (posix_env net_ok) index_html (fresh tree_read_only)
  = Raised PermissionError
      (state_of (process_file (posix_env net_ok) index_html (fresh tree_read_only)))
  /\ fs (fresh tree_read_only)
     ⊆ fs (state_of (process_file (posix_env net_ok) index_html
                       (fresh tree_read_only)))
  /\ (read_text (fs (fresh tree_read_only)) index_html = ReadFails PermissionError
      /\ state_of (process_file (posix_env net_ok) index_html (fresh tree_read_only))
         = log (Processing index_html) (fresh tree_read_only)
      \/ exists content,
           read_text (fs (fresh tree_read_only)) index_html = ReadOk content
           /\ read_text
                (fs (state_of (process_file (posix_env net_ok) index_html
                                 (fresh tree_read_only))))
                index_html
              = ReadOk content).
Proof.
  assert (H : process_file (posix_env net_ok) index_html (fresh tree_read_only)
              = Raised PermissionError
                  (state_of (process_file (posix_env net_ok) index_html
                               (fresh tree_read_only))))
    by (vm_compute; reflexivity).
  split; [exact H|].
  exact (abort_leaves_document (posix_env net_ok) index_html
           (fresh tree_read_only) PermissionError _ H).
Defined.

Lemma html_directory_aborts_run_witness :
  old_html ∈ rglob (fs (fresh tree_html_dir))
  /\ fs (fresh tree_html_dir) !! old_html = Some (Dir true)
  /\ exists e st', main (posix_env net_ok) (fresh tree_html_dir) = Raised e st'.
Proof.
  assert (H1 : old_html ∈ rglob (fs (fresh tree_html_dir))).
  { apply list_elem_of_In.
    assert (Hb : existsb (fun p => bool_decide (p = old_html))
                   (rglob (fs (fresh tree_html_dir))) = true)
      by (vm_compute; reflexivity).
    apply existsb_exists in Hb. destruct Hb as (p & Hp & Heq).
    apply bool_decide_eq_true in Heq. subst p. exact Hp. }
  assert (H2 : fs (fresh tree_html_dir) !! old_html = Some (Dir true))
    by (vm_compute; reflexivity).
  split; [exact H1|]. split; [exact H2|].
  exact (html_directory_aborts_run (posix_env net_ok) (fresh tree_html_dir)
           old_html true H1 H2).
Defined.

(** *** A run over documents that can be read and written *)




(** *** A second run *)






(** A match that is not inert is one on which the loop acts: in a state
    whose dictionary does not hold its URL, as at the start of a run, its
    step changes the text or creates a file. *)
Lemma not_inert_acts E fp content st m url :
  html_unescape E m = inr url ->
  url_to_local_path st !! url = None ->
  inert E (fs st) fp content m = false ->
  fst (rewrite_url E fp (content, st) url) <> content
  \/ fs (snd (rewrite_url E fp (content, st) url)) <> fs st.
Proof.
  intros Hu Hmiss Hin. unfold inert in Hin. rewrite Hu in Hin.
  unfold rewrite_url.
  destruct (contains search_index url); [discriminate|].
  cbv beta zeta iota delta [orb] in Hin.
  download_cases E url st; try discriminate.
  - destruct (relpath E _ _) as [rel|]; [|discriminate].
    apply bool_decide_eq_false in Hin. left. exact Hin.
  - right. destruct (open_w_fresh _ _ _ _ Hex Hop) as (Hq & -> & _).
    simpl. intros Heq. apply (f_equal (fun g => g !! q)) in Heq.
    rewrite lookup_insert_eq, Hq in Heq. discriminate.
  - right. destruct (open_w_fresh _ _ _ _ Hex Hop) as (Hq & -> & _).
    destruct (relpath E _ _); simpl; intros Heq;
      apply (f_equal (fun g => g !! q)) in Heq;
      rewrite lookup_insert_eq, Hq in Heq; discriminate.
Qed.



(** The same check on other first runs: with the network down the URL
    stays in the document and the second run fails again; after a run that
    rewrote every reference nothing is left; after the run of the
    counterexample a match is left on which the second run acts. *)
Example all_inert_examples :
  all_inert (posix_env net_down)
    (fs (state_of (main (posix_env net_down) (fresh tree_one)))) = true
  /\ all_inert (posix_env net_ok)
       (fs (state_of (main (posix_env net_ok) (fresh tree_one)))) = true
  /\ all_inert (posix_env net_one_gone)
       (fs (state_of (main (posix_env net_one_gone) (fresh tree_twins)))) = false.
Proof. repeat split; vm_compute; reflexivity. Qed.

(** *** A failure at the existence check *)

(** The file name computed for [url_long] has 313 bytes: [os.stat] fails in
    [local_path.exists()], the call reports a failure without a fetch, and
    the next call does the same. *)
Lemma failure_not_cached_witness :
  download_file (posix_env net_ok) url_long (fresh empty_tree)
  = (None, snd (download_file (posix_env net_ok) url_long (fresh empty_tree)))
  /\ url_to_local_path
       (snd (download_file (posix_env net_ok) url_long (fresh empty_tree)))
     = url_to_local_path (fresh empty_tree)
  /\ url_to_local_path
       (snd (download_file (posix_env net_ok) url_long (fresh empty_tree)))
       !! url_long = None
  /\ (early_error (posix_env net_ok) (fs (fresh empty_tree)) url_long <> None
      /\ fs (snd (download_file (posix_env net_ok) url_long (fresh empty_tree)))
         = fs (fresh empty_tree)
      /\ console (snd (download_file (posix_env net_ok) url_long (fresh empty_tree)))
         = FailedDownload url_long :: Materialize url_long
             :: console (fresh empty_tree)
      \/ early_error (posix_env net_ok) (fs (fresh empty_tree)) url_long = None
         /\ path_exists (fs (fresh empty_tree))
              (local_path_of (posix_env net_ok) url_long) = false
         /\ console (snd (download_file (posix_env net_ok) url_long
                            (fresh empty_tree)))
            = FailedDownload url_long
                :: Downloading url_long (local_path_of (posix_env net_ok) url_long)
                :: Materialize url_long :: console (fresh empty_tree))
  /\ (exists ev rest,
        console
          (snd (download_file (posix_env net_ok) url_long
                  (snd (download_file (posix_env net_ok) url_long
                          (fresh empty_tree)))))
        = ev :: rest ++ Materialize url_long
            :: console (snd (download_file (posix_env net_ok) url_long
                               (fresh empty_tree)))
        /\ (ev = FailedDownload url_long
            \/ ev = SkippingExists (local_path_of (posix_env net_ok) url_long)
            \/ ev = Downloading url_long
                      (local_path_of (posix_env net_ok) url_long)))
  /\ forall fp content,
       fst (rewrite_url (posix_env net_ok) fp (content, fresh empty_tree) url_long)
       = content.
Proof.
  assert (H : download_file (posix_env net_ok) url_long (fresh empty_tree)
              = (None, snd (download_file (posix_env net_ok) url_long
                              (fresh empty_tree))))
    by (vm_compute; reflexivity).
  split; [exact H|].
  exact (failure_not_cached (posix_env net_ok) url_long (fresh empty_tree) _ H).
Defined.

Example long_name_fails_before_fetch :
  length (utf8_encode (local_filename (posix_env net_ok) url_long)) = 313
  /\ stat_error (posix_env net_ok) empty_tree
       (local_path_of (posix_env net_ok) url_long) = Some OSError
  /\ console (snd (download_file (posix_env net_ok) url_long (fresh empty_tree)))
     = [FailedDownload url_long; Materialize url_long].
Proof. repeat split; vm_compute; reflexivity. Qed.

(** [urlparse] raises on no URL that the loop passes on: the host is that
    of the CDN. *)
Lemma urlparse_accepts_cdn E rest : urlparse_raises E (cdn_prefix ++ rest) = false.
Proof. vm_compute. reflexivity. Qed.

Lemma urlparse_accepts_match E content m :
  m ∈ findall content -> urlparse_raises E (unescape E m) = false.
Proof.
  intros Hm.
  destruct (findall_from_inv 0 content m Hm) as (pre & suf & _ & Hs).
  destruct (match_at_inv suf m Hs) as (body & -> & _).
  rewrite unescape_app_plain by (vm_compute; reflexivity).
  apply urlparse_accepts_cdn.
Qed.

Example bracket_host_fails_before_fetch :
  let url := lit "https://[/a.png" in
  urlparse_raises (posix_env net_ok) url = true
  /\ download_file (posix_env net_ok) url (fresh empty_tree)
     = (None, log (FailedDownload url) (log (Materialize url) (fresh empty_tree))).
Proof. split; vm_compute; reflexivity. Qed.
